(** * Attachment ingestion of the gateway: [src/gateway/chat-attachments.ts]

    A shallow embedding of the attachment pipeline (content normalizer,
    prefix sniffer, validator, the multi-image collector
    [parseMessageWithAttachments], the first-audio selector
    [getFirstAudioAttachment] and the deprecated
    [buildMessageWithAttachments]) together with the properties the
    specification states about them.

    Modelling conventions.
    - A JavaScript string is a [string]: a sequence of code units, here
      restricted to the range 0..255.  Whitespace and case mapping are the
      ECMAScript ones on that range.
    - A [Buffer] is a [list byte].
    - [throw new Error(msg)] is the [Throw] result; the four message
      templates of the file are the constructors of [AttachmentError] and
      [error_message] renders the text.
    - [maxBytes] is an integer ([Z]); sizes and indices are [nat].
    - [detectMime] lives in [../media/mime.js]; it is a parameter of the
      development (a total function from a buffer to an optional type).
    - An attachment list is a [list (option ChatAttachment)]: the entry
      [None] is a null or undefined element, which the loops test with
      [!att].
    - The optional warning sink [opts.log] is a piece of state: [None] when
      the caller passed none, [Some l] when [l] collects the warnings. *)

From Stdlib Require Import ZArith NArith Lia Bool.
From Stdlib.Strings Require Import Ascii String Byte.
From Stdlib Require Import DecimalString.
From stdpp Require Import base option list strings.

Local Open Scope string_scope.
Local Open Scope list_scope.

(** ** The JavaScript runtime: strings *)

Module JS.

(** [WhiteSpace] and [LineTerminator] code units below 256: TAB, LF, VT, FF,
    CR, SP and NBSP.  These are what [String.prototype.trim] removes and
    what [\s] matches. *)
Definition is_whitespace (c : ascii) : bool :=
  let n := N_of_ascii c in
  ((9 <=? n) && (n <=? 13) || (n =? 32) || (n =? 160))%N.

(** The characters the regular expression [.] does not match. *)
Definition is_line_terminator (c : ascii) : bool :=
  let n := N_of_ascii c in ((n =? 10) || (n =? 13))%N.

Fixpoint trimStart (s : string) : string :=
  match s with
  | EmptyString => EmptyString
  | String c r => if is_whitespace c then trimStart r else s
  end.

Fixpoint trimEnd (s : string) : string :=
  match s with
  | EmptyString => EmptyString
  | String c r =>
      match trimEnd r with
      | EmptyString => if is_whitespace c then EmptyString else String c EmptyString
      | r' => String c r'
      end
  end.

Definition trim (s : string) : string := trimEnd (trimStart s).

(** [String.prototype.toLowerCase] on one code unit below 256: the letters
    A-Z and the Latin-1 capitals U+00C0..U+00DE without U+00D7. *)
Definition lower_char (c : ascii) : ascii :=
  let n := N_of_ascii c in
  if ((65 <=? n) && (n <=? 90) || (192 <=? n) && (n <=? 222) && negb (n =? 215))%N
  then ascii_of_N (n + 32) else c.

Fixpoint toLowerCase (s : string) : string :=
  match s with
  | EmptyString => EmptyString
  | String c r => String (lower_char c) (toLowerCase r)
  end.

(** [s.startsWith(p)] *)
Definition startsWith (s p : string) : bool := String.prefix p s.

(** [s.split(sep)[0]] for a one-character separator: the text before the
    first separator, the whole string when there is none. *)
Fixpoint split_head (sep : ascii) (s : string) : string :=
  match s with
  | EmptyString => EmptyString
  | String c r => if Ascii.eqb c sep then EmptyString else String c (split_head sep r)
  end.

(** [s.replace(/a/g, b)] for single characters. *)
Fixpoint replace_char (a b : ascii) (s : string) : string :=
  match s with
  | EmptyString => EmptyString
  | String c r => String (if Ascii.eqb c a then b else c) (replace_char a b r)
  end.

(** [c.repeat(n)] *)
Fixpoint repeat (c : ascii) (n : nat) : string :=
  match n with
  | O => EmptyString
  | S k => String c (repeat c k)
  end.

(** [s.slice(0, n)] *)
Fixpoint slice0 (n : nat) (s : string) : string :=
  match n, s with
  | S k, String c r => String c (slice0 k r)
  | _, _ => EmptyString
  end.

Fixpoint existsb (p : ascii -> bool) (s : string) : bool :=
  match s with
  | EmptyString => false
  | String c r => p c || existsb p r
  end.

(** [s.replace(/\s+/g, "_")]: every maximal run of whitespace becomes one
    underscore.  [in_run] records that the previous character was
    whitespace. *)
Fixpoint replace_ws_runs (in_run : bool) (s : string) : string :=
  match s with
  | EmptyString => EmptyString
  | String c r =>
      if is_whitespace c
      then (if in_run then replace_ws_runs true r
            else String "_" (replace_ws_runs true r))
      else String c (replace_ws_runs false r)
  end.

(** [parts.join(sep)] *)
Fixpoint join (sep : string) (parts : list string) : string :=
  match parts with
  | [] => EmptyString
  | [p] => p
  | p :: rest => p +:+ sep +:+ join sep rest
  end.

(** Template-literal rendering of an integer. *)
Definition string_of_nat (n : nat) : string := NilZero.string_of_uint (Nat.to_uint n).
Definition string_of_Z (z : Z) : string := NilZero.string_of_int (Z.to_int z).

(** Truthiness of a [string | undefined]: defined and not empty. *)
Definition truthy (o : option string) : bool :=
  match o with
  | Some s => negb (String.eqb s "")
  | None => false
  end.

(** [a || b] on a [string | undefined] with a string fallback. *)
Definition or_else (o : option string) (d : string) : string :=
  match o with
  | Some s => if String.eqb s "" then d else s
  | None => d
  end.

End JS.

(** ** The JavaScript runtime: [Buffer.from(text, "base64")]

    Node's decoder is forgiving: it never throws on a string; characters
    outside the alphabet are skipped, both the standard and the URL-safe
    alphabet are accepted, decoding stops at the first [=], and a trailing
    group of two (three) sextets yields one (two) bytes. *)

Module Buffer.

Definition unbase64 (c : ascii) : option N :=
  let n := N_of_ascii c in
  if ((65 <=? n) && (n <=? 90))%N then Some (n - 65)%N
  else if ((97 <=? n) && (n <=? 122))%N then Some (n - 97 + 26)%N
  else if ((48 <=? n) && (n <=? 57))%N then Some (n - 48 + 52)%N
  else if ((n =? 43) || (n =? 45))%N then Some 62%N     (* + and - *)
  else if ((n =? 47) || (n =? 95))%N then Some 63%N     (* / and _ *)
  else None.

Definition byte_of_N (n : N) : byte := byte_of_ascii (ascii_of_N n).

Definition byte0 (hi lo : N) : byte :=
  byte_of_N (N.lor (N.shiftl (N.land hi 63) 2) (N.shiftr (N.land lo 48) 4)).
Definition byte1 (hi lo : N) : byte :=
  byte_of_N (N.lor (N.shiftl (N.land hi 15) 4) (N.shiftr (N.land lo 60) 2)).
Definition byte2 (hi lo : N) : byte :=
  byte_of_N (N.lor (N.shiftl (N.land hi 3) 6) (N.land lo 63)).

(** The sextets of the group being read. *)
Inductive group : Type :=
  | G0
  | G1 (a : N)
  | G2 (a b : N)
  | G3 (a b c : N).

(** Bytes already produced by an unfinished group when decoding stops. *)
Definition flush (g : group) : list byte :=
  match g with
  | G0 | G1 _ => []
  | G2 a b => [byte0 a b]
  | G3 a b c => [byte0 a b; byte1 b c]
  end.

Fixpoint decode (g : group) (s : string) : list byte :=
  match s with
  | EmptyString => flush g
  | String ch r =>
      if Ascii.eqb ch "=" then flush g
      else match unbase64 ch with
           | None => decode g r
           | Some v =>
               match g with
               | G0 => decode (G1 v) r
               | G1 a => decode (G2 a v) r
               | G2 a b => decode (G3 a b v) r
               | G3 a b c => byte0 a b :: byte1 b c :: byte2 c v :: decode G0 r
               end
           end
  end.

Definition from_base64 (s : string) : list byte := decode G0 s.

(** [buffer.byteLength] *)
Definition byteLength (b : list byte) : nat := length b.

End Buffer.

(** ** Data model *)

(** [content?: unknown]: what the core can tell apart at run time is
    whether [typeof content === "string"]. *)
Inductive Unknown : Type :=
  | UUndefined
  | UString (s : string)
  | UBinary (b : list byte).

Record ChatAttachment : Type := {
  att_type : option string;
  att_mimeType : option string;
  att_fileName : option string;
  att_content : Unknown
}.

Record ChatImageContent : Type := {
  img_type : string;          (* always "image" *)
  img_data : string;
  img_mimeType : string
}.

Record ParsedMessageWithImages : Type := {
  message : string;
  images : list ChatImageContent
}.

(** A [ChatAttachment] whose content passed the [typeof] test. *)
Record NormalizedAttachment : Type := {
  norm_type : option string;
  norm_mimeType : option string;
  norm_fileName : option string;
  norm_content : string
}.

Record FirstAudioResult : Type := {
  buffer : list byte;
  mimeType : string
}.

(** The warning sink: the messages passed to [warn], oldest first. *)
Definition AttachmentLog : Type := list string.

(** [log?.warn(msg)] *)
Definition warn (log : option AttachmentLog) (msg : string) : option AttachmentLog :=
  match log with
  | Some l => Some (l ++ [msg])
  | None => None
  end.

Record ParseOpts : Type := {
  opt_maxBytes : option Z;
  opt_log : option AttachmentLog
}.

Record BuildOpts : Type := {
  build_maxBytes : option Z
}.

(** ** Errors *)

Inductive AttachmentError : Type :=
  | ContentMustBeBase64String (label : string)
  | InvalidBase64Content (label : string)
  | ExceedsSizeLimit (label : string) (size : nat) (maxBytes : Z)
  | OnlyImageSupported (label : string).

Definition error_message (e : AttachmentError) : string :=
  match e with
  | ContentMustBeBase64String label =>
      "attachment " +:+ label +:+ ": content must be base64 string"
  | InvalidBase64Content label =>
      "attachment " +:+ label +:+ ": invalid base64 content"
  | ExceedsSizeLimit label size maxBytes =>
      "attachment " +:+ label +:+ ": exceeds size limit (" +:+ JS.string_of_nat size
        +:+ " > " +:+ JS.string_of_Z maxBytes +:+ " bytes)"
  | OnlyImageSupported label =>
      "attachment " +:+ label +:+ ": only image/* supported"
  end.

(** The error kinds of the specification. *)
Inductive ErrorKind : Type :=
  | UnsupportedContentShape
  | InvalidEncoding
  | SizeExceeded
  | NotAnImage.

Definition error_kind (e : AttachmentError) : ErrorKind :=
  match e with
  | ContentMustBeBase64String _ => UnsupportedContentShape
  | InvalidBase64Content _ => InvalidEncoding
  | ExceedsSizeLimit _ _ _ => SizeExceeded
  | OnlyImageSupported _ => NotAnImage
  end.

Inductive result (A : Type) : Type :=
  | Ok (a : A)
  | Throw (e : AttachmentError).
Arguments Ok {A} a.
Arguments Throw {A} e.

#[global] Instance result_ret : MRet result := fun A a => Ok a.
#[global] Instance result_bind : MBind result := fun A B k r =>
  match r with
  | Ok a => k a
  | Throw e => Throw e
  end.

(** ** Leaf helpers of [chat-attachments.ts] *)

Definition normalizeMime (mime : option string) : option string :=
  match mime with
  | None => None
  | Some m =>
      if String.eqb m "" then None
      else
        let cleaned := JS.toLowerCase (JS.trim (JS.split_head ";" m)) in
        if String.eqb cleaned "" then None else Some cleaned
  end.

(** [s] without its prefix [p], when [s] starts with [p]. *)
Fixpoint strip_prefix (p s : string) : option string :=
  match p with
  | EmptyString => Some s
  | String a p' =>
      match s with
      | EmptyString => None
      | String b s' => if Ascii.eqb a b then strip_prefix p' s' else None
      end
  end.

(** The text from the first separator on (the separator included), empty
    when there is none: what [JS.split_head] leaves. *)
Fixpoint after_head (sep : ascii) (s : string) : string :=
  match s with
  | EmptyString => EmptyString
  | String c r => if Ascii.eqb c sep then s else after_head sep r
  end.

(** The captured group of the data-URL regular expression of
    [stripDataUrlPrefix] (anchored at both ends: the literal [data:], one or
    more characters other than a semicolon, the literal [;base64,], then a
    captured run of any characters matched by a dot).  The run of
    non-semicolons is the non-empty text between [data:] and the first
    semicolon; the captured run is the rest of the input, provided it holds
    no line terminator. *)
Definition exec_data_url (s : string) : option string :=
  match strip_prefix "data:" s with
  | None => None
  | Some t =>
      if String.eqb (JS.split_head ";" t) "" then None
      else
        match strip_prefix ";base64," (after_head ";" t) with
        | None => None
        | Some rest => if JS.existsb JS.is_line_terminator rest then None else Some rest
        end
  end.

Definition stripDataUrlPrefix (content : string) : string :=
  let trimmed := JS.trim content in
  match exec_data_url trimmed with
  | Some m1 => m1
  | None => trimmed
  end.

Definition normalizeBase64ForDecode (content : string) : string :=
  let s := JS.trim (stripDataUrlPrefix content) in
  let s := JS.replace_char "_" "/" (JS.replace_char "-" "+" s) in
  let remainder := String.length s mod 4 in
  if Nat.eqb remainder 0 then s else s +:+ JS.repeat "=" (4 - remainder).

(** The class [[A-Za-z0-9+/=]]. *)
Definition is_base64_char (c : ascii) : bool :=
  let n := N_of_ascii c in
  ((65 <=? n) && (n <=? 90) || (97 <=? n) && (n <=? 122) || (48 <=? n) && (n <=? 57)
   || (n =? 43) || (n =? 47) || (n =? 61))%N.

(** [/[^A-Za-z0-9+/=]/.test(s)] *)
Definition has_illegal_char (s : string) : bool :=
  JS.existsb (fun c => negb (is_base64_char c)) s.

Definition isImageMime (mime : option string) : bool :=
  match mime with
  | Some m => JS.startsWith m "image/"
  | None => false
  end.

Definition isAudioMime (mime : option string) : bool :=
  match mime with
  | Some m => JS.startsWith m "audio/"
  | None => false
  end.

(** [att.fileName || att.type || `attachment-${idx + 1}`] *)
Definition label_of (fileName type : option string) (idx : nat) : string :=
  JS.or_else fileName (JS.or_else type ("attachment-" +:+ JS.string_of_nat (idx + 1))).

(** [size <= 0 || size > maxBytes] *)
Definition size_rejected (size : nat) (maxBytes : Z) : bool :=
  (Z.of_nat size <=? 0)%Z || (maxBytes <? Z.of_nat size)%Z.

(** Rendering of a [string | undefined] inside a template literal. *)
Definition render (o : option string) : string :=
  match o with
  | Some s => s
  | None => "undefined"
  end.

Definition opt_eqb (a b : option string) : bool :=
  match a, b with
  | Some x, Some y => String.eqb x y
  | None, None => true
  | _, _ => false
  end.

(** ** The three entry points *)

Section Pipeline.

(** [detectMime] of [../media/mime.js], applied to [{ buffer }]. *)
Variable detectMime : list byte -> option string.

(** The [try]/[catch] of the source turns a failure of the decoder or of the
    detector into [undefined]; here the decoder cannot fail and a detector
    that fails answers [None]. *)
Definition sniffMimeFromBase64 (base64 : string) : option string :=
  let normalized := normalizeBase64ForDecode base64 in
  if String.eqb normalized "" then None
  else
    let take := Nat.min 256 (String.length normalized) in
    let sliceLen := take - take mod 4 in
    if Nat.ltb sliceLen 8 then None
    else detectMime (Buffer.from_base64 (JS.slice0 sliceLen normalized)).

(** *** Strict path: the first audio attachment *)

Definition decodeAndValidateAudioAttachment
    (att : NormalizedAttachment) (idx : nat) (maxBytes : Z)
  : result (option FirstAudioResult) :=
  let label := label_of (norm_fileName att) (norm_type att) idx in
  let b64 := normalizeBase64ForDecode (norm_content att) in
  if has_illegal_char b64 then Throw (InvalidBase64Content label)
  else
    let buffer := Buffer.from_base64 b64 in
    if size_rejected (Buffer.byteLength buffer) maxBytes
    then Throw (ExceedsSizeLimit label (Buffer.byteLength buffer) maxBytes)
    else
      let mimeType :=
        match normalizeMime (norm_mimeType att) with
        | Some m => m
        | None =>
            match detectMime buffer with
            | Some m => m
            | None => "audio/octet-stream"
            end
        end in
      if negb (isAudioMime (Some mimeType)) then Ok None
      else Ok (Some {| buffer := buffer; mimeType := mimeType |}).

(** One iteration of the loop of [getFirstAudioAttachment]: [Ok (Some r)]
    is [return r], [Ok None] falls through to the next attachment. *)
Definition getFirstAudioAttachment_iter
    (maxBytes : Z) (idx : nat) (entry : option ChatAttachment)
  : result (option FirstAudioResult) :=
  match entry with
  | None => Ok None
  | Some att =>
      match att_content att with
      | UString content =>
          let natt := {| norm_type := att_type att; norm_mimeType := att_mimeType att;
                         norm_fileName := att_fileName att; norm_content := content |} in
          let mime := default "" (att_mimeType att) in
          let providedMime := normalizeMime (Some mime) in
          declared ←
            (if JS.truthy providedMime && isAudioMime providedMime
             then decodeAndValidateAudioAttachment natt idx maxBytes
             else Ok None);
          match declared with
          | Some r => Ok (Some r)
          | None =>
              let sniffedMime := normalizeMime (sniffMimeFromBase64 content) in
              if JS.truthy sniffedMime && isAudioMime sniffedMime
              then decodeAndValidateAudioAttachment natt idx maxBytes
              else Ok None
          end
      | _ => Ok None
      end
  end.

Fixpoint getFirstAudioAttachment_loop
    (maxBytes : Z) (idx : nat) (entries : list (option ChatAttachment))
  : result (option FirstAudioResult) :=
  match entries with
  | [] => Ok None
  | entry :: rest =>
      found ← getFirstAudioAttachment_iter maxBytes idx entry;
      match found with
      | Some r => Ok (Some r)
      | None => getFirstAudioAttachment_loop maxBytes (S idx) rest
      end
  end.

Definition getFirstAudioAttachment
    (attachments : option (list (option ChatAttachment))) (maxBytes : Z)
  : result (option FirstAudioResult) :=
  match attachments with
  | None | Some [] => Ok None
  | Some entries => getFirstAudioAttachment_loop maxBytes 0 entries
  end.

(** *** Lenient path: the image list *)

(** One iteration of the loop of [parseMessageWithAttachments], from the
    sink before it to the sink after it; [Ok (Some img)] is
    [images.push(img)], [Ok None] is [continue]. *)
Definition parseMessageWithAttachments_iter
    (maxBytes : Z) (log : option AttachmentLog) (idx : nat) (entry : option ChatAttachment)
  : option AttachmentLog * result (option ChatImageContent) :=
  match entry with
  | None => (log, Ok None)
  | Some att =>
      let mime := default "" (att_mimeType att) in
      let label := label_of (att_fileName att) (att_type att) idx in
      match att_content att with
      | UString content =>
          let b64 := normalizeBase64ForDecode content in
          if has_illegal_char b64 then (log, Throw (InvalidBase64Content label))
          else
            let sizeBytes := Buffer.byteLength (Buffer.from_base64 b64) in
            if size_rejected sizeBytes maxBytes
            then (log, Throw (ExceedsSizeLimit label sizeBytes maxBytes))
            else
              let providedMime := normalizeMime (Some mime) in
              let sniffedMime := normalizeMime (sniffMimeFromBase64 b64) in
              let sniffedIsAudio := isAudioMime sniffedMime in
              let providedIsAudio := isAudioMime providedMime in
              let isM4aAudio := providedIsAudio && opt_eqb sniffedMime (Some "video/mp4") in
              if JS.truthy sniffedMime && negb (isImageMime sniffedMime) then
                ((if negb sniffedIsAudio && negb isM4aAudio
                  then warn log ("attachment " +:+ label +:+ ": detected non-image ("
                                   +:+ render sniffedMime +:+ "), dropping")
                  else log),
                 Ok None)
              else if negb (JS.truthy sniffedMime) && negb (isImageMime providedMime) then
                ((if negb providedIsAudio
                  then warn log ("attachment " +:+ label
                                   +:+ ": unable to detect image mime type, dropping")
                  else log),
                 Ok None)
              else
                ((if JS.truthy sniffedMime && JS.truthy providedMime
                     && negb (opt_eqb sniffedMime providedMime)
                  then warn log ("attachment " +:+ label +:+ ": mime mismatch ("
                                   +:+ render providedMime +:+ " -> " +:+ render sniffedMime
                                   +:+ "), using sniffed")
                  else log),
                 Ok (Some {| img_type := "image";
                             img_data := b64;
                             img_mimeType :=
                               match sniffedMime with
                               | Some m => m
                               | None => match providedMime with Some m => m | None => mime end
                               end |}))
      | _ => (log, Throw (ContentMustBeBase64String label))
      end
  end.

Fixpoint parseMessageWithAttachments_loop
    (maxBytes : Z) (log : option AttachmentLog) (idx : nat)
    (entries : list (option ChatAttachment)) (images : list ChatImageContent)
  : option AttachmentLog * result (list ChatImageContent) :=
  match entries with
  | [] => (log, Ok images)
  | entry :: rest =>
      match parseMessageWithAttachments_iter maxBytes log idx entry with
      | (log', Throw e) => (log', Throw e)
      | (log', Ok None) => parseMessageWithAttachments_loop maxBytes log' (S idx) rest images
      | (log', Ok (Some img)) =>
          parseMessageWithAttachments_loop maxBytes log' (S idx) rest (images ++ [img])
      end
  end.

Definition parseMessageWithAttachments
    (msg : string) (attachments : option (list (option ChatAttachment)))
    (opts : option ParseOpts)
  : option AttachmentLog * result ParsedMessageWithImages :=
  let maxBytes := default 5000000%Z (opts ≫= opt_maxBytes) in
  let log := opts ≫= opt_log in
  match attachments with
  | None | Some [] => (log, Ok {| message := msg; images := [] |})
  | Some entries =>
      match parseMessageWithAttachments_loop maxBytes log 0 entries [] with
      | (log', Throw e) => (log', Throw e)
      | (log', Ok imgs) => (log', Ok {| message := msg; images := imgs |})
      end
  end.

(** *** Legacy path: markdown data URLs (deprecated) *)

Definition blank_line : string := String "010" (String "010" EmptyString).

Definition buildMessageWithAttachments_iter
    (maxBytes : Z) (idx : nat) (entry : option ChatAttachment)
  : result (option string) :=
  match entry with
  | None => Ok None
  | Some att =>
      let mime := default "" (att_mimeType att) in
      let label := label_of (att_fileName att) (att_type att) idx in
      match att_content att with
      | UString content =>
          if negb (JS.startsWith mime "image/") then Throw (OnlyImageSupported label)
          else
            let b64 := JS.trim content in
            if negb (Nat.eqb (String.length b64 mod 4) 0) || has_illegal_char b64
            then Throw (InvalidBase64Content label)
            else
              let sizeBytes := Buffer.byteLength (Buffer.from_base64 b64) in
              if size_rejected sizeBytes maxBytes
              then Throw (ExceedsSizeLimit label sizeBytes maxBytes)
              else
                let safeLabel := JS.replace_ws_runs false label in
                Ok (Some ("![" +:+ safeLabel +:+ "](data:" +:+ mime +:+ ";base64,"
                            +:+ content +:+ ")"))
      | _ => Throw (ContentMustBeBase64String label)
      end
  end.

Fixpoint buildMessageWithAttachments_loop
    (maxBytes : Z) (idx : nat) (entries : list (option ChatAttachment)) (blocks : list string)
  : result (list string) :=
  match entries with
  | [] => Ok blocks
  | entry :: rest =>
      block ← buildMessageWithAttachments_iter maxBytes idx entry;
      match block with
      | Some dataUrl => buildMessageWithAttachments_loop maxBytes (S idx) rest (blocks ++ [dataUrl])
      | None => buildMessageWithAttachments_loop maxBytes (S idx) rest blocks
      end
  end.

Definition buildMessageWithAttachments
    (msg : string) (attachments : option (list (option ChatAttachment)))
    (opts : option BuildOpts)
  : result string :=
  let maxBytes := default 2000000%Z (opts ≫= build_maxBytes) in
  match attachments with
  | None | Some [] => Ok msg
  | Some entries =>
      blocks ← buildMessageWithAttachments_loop maxBytes 0 entries [];
      match blocks with
      | [] => Ok msg
      | _ =>
          let separator := if Nat.ltb 0 (String.length (JS.trim msg)) then blank_line else "" in
          Ok (msg +:+ separator +:+ JS.join blank_line blocks)
      end
  end.

End Pipeline.

(** ** Sample detectors and attachments

    The theorems below hold for every detector.  The concrete runs use
    small signature detectors: [magicDetect] reports bare types,
    [codecDetect] reports Ogg audio with a codec parameter. *)

Fixpoint has_signature (sig buf : list byte) : bool :=
  match sig, buf with
  | [], _ => true
  | s :: sig', b :: buf' => Byte.eqb s b && has_signature sig' buf'
  | _ :: _, [] => false
  end.

Definition magicDetect (buf : list byte) : option string :=
  if has_signature [xff; xd8; xff] buf then Some "image/jpeg"
  else if has_signature [x89; x50; x4e; x47] buf then Some "image/png"
  else if has_signature [x4f; x67; x67; x53] buf then Some "audio/ogg"
  else if has_signature [x66; x74; x79; x70] (drop 4 buf) then Some "video/mp4"
  else if has_signature [x25; x50; x44; x46] buf then Some "application/pdf"
  else None.

Definition codecDetect (buf : list byte) : option string :=
  if has_signature [x4f; x67; x67; x53] buf then Some "audio/ogg; codecs=opus"
  else None.

(** A detector that tells audio from video in an Ogg container only when it
    sees more than the first 192 bytes. *)
Definition containerDetect (buf : list byte) : option string :=
  if has_signature [x4f; x67; x67; x53] buf
  then (if Nat.ltb 192 (length buf) then Some "video/ogg" else Some "audio/ogg")
  else None.

Definition attachment (mime : option string) (name : string) (content : Unknown)
  : option ChatAttachment :=
  Some {| att_type := None; att_mimeType := mime; att_fileName := Some name;
          att_content := content |}.

(** JPEG, PNG, Ogg, MPEG-4 and PDF headers in base64. *)
Definition jpeg_b64 : string := "/9j/4AAQ".
Definition png_b64 : string := "iVBORw0K".
Definition ogg_b64 : string := "T2dnUwAC".
Definition ogg2_b64 : string := "T2dnUwAD".
Definition mp4_b64 : string := "AAAAGGZ0eXBN".
Definition pdf_b64 : string := "JVBERi0x".
(** An Ogg header followed by 192 zero bytes: 264 characters, 198 bytes. *)
Definition ogg_long_b64 : string := "T2dnUwAC" +:+ JS.repeat "A" 256.

(** ** Predicates used by the statements *)

(** The standard alphabet without the padding character. *)
Definition is_standard_char (c : ascii) : bool :=
  is_base64_char c && negb (Ascii.eqb c "=").

(** Standard-alphabet characters followed by at most two [=] at the very
    end. *)
Fixpoint canonical_tail (s : string) : bool :=
  match s with
  | EmptyString => true
  | String c r =>
      if is_standard_char c then canonical_tail r
      else Ascii.eqb c "=" && (String.eqb r "" || String.eqb r "=")
  end.

(** Canonical base64: standard alphabet, padded to a multiple of four. *)
Definition is_canonical_base64 (s : string) : bool :=
  Nat.eqb (String.length s mod 4) 0 && canonical_tail s.

Definition is_lowercase (m : string) : Prop := JS.toLowerCase m = m.

Definition parameter_free (m : string) : Prop := JS.existsb (Ascii.eqb ";") m = false.

(** [t] occurs in [s]. *)
Definition includes (s t : string) : Prop := exists pre post, s = pre +:+ t +:+ post.

Definition has_string_content (att : ChatAttachment) : bool :=
  match att_content att with
  | UString _ => true
  | _ => false
  end.

(** The canonical text and the decoded size of a string content. *)
Definition decoded_size (content : string) : nat :=
  Buffer.byteLength (Buffer.from_base64 (normalizeBase64ForDecode content)).

(** Validation of section 4.3 on a string content: legal characters after
    normalization and a decoded size within [1, maxBytes]. *)
Definition valid_content (content : string) (maxBytes : Z) : Prop :=
  has_illegal_char (normalizeBase64ForDecode content) = false /\
  (1 <= Z.of_nat (decoded_size content) <= maxBytes)%Z.

(** The image the lenient path keeps for one list entry, if any. *)
Definition kept_image (detectMime : list byte -> option string) (maxBytes : Z)
    (idx : nat) (entry : option ChatAttachment) : option ChatImageContent :=
  match snd (parseMessageWithAttachments_iter detectMime maxBytes None idx entry) with
  | Ok (Some img) => Some img
  | _ => None
  end.

(** The canonical text of one list entry. *)
Definition entry_data (entry : option ChatAttachment) : option string :=
  match entry with
  | Some att =>
      match att_content att with
      | UString content => Some (normalizeBase64ForDecode content)
      | _ => None
      end
  | None => None
  end.

(** The sink only grows, and only when there is one. *)
Definition extends (log log' : option AttachmentLog) : Prop :=
  match log with
  | Some l => exists more, log' = Some (l ++ more)
  | None => log' = None
  end.

(** ** Further predicates *)

(** A string, character by character. *)
Fixpoint map_chars (f : ascii -> ascii) (s : string) : string :=
  match s with
  | EmptyString => EmptyString
  | String c r => String (f c) (map_chars f r)
  end.

(** The URL-safe spelling of a base64 text: [+] becomes [-], [/] becomes
    [_]. *)
Definition to_url_safe (s : string) : string :=
  JS.replace_char "/" "_" (JS.replace_char "+" "-" s).

(** The sink after a run is the sink before it with at most [n] warnings
    appended; without a sink there is none afterwards either. *)
Definition grows_by (n : nat) (log log' : option AttachmentLog) : Prop :=
  match log with
  | Some l => exists more, log' = Some (l ++ more) /\ length more <= n
  | None => log' = None
  end.

(** The sextets a decoder state holds. *)
Definition pending (g : Buffer.group) : nat :=
  match g with
  | Buffer.G0 => 0
  | Buffer.G1 _ => 1
  | Buffer.G2 _ _ => 2
  | Buffer.G3 _ _ _ => 3
  end.

(** The entries of a list that are attachments (not null). *)
Definition attachments_of (entries : list (option ChatAttachment)) : list ChatAttachment :=
  omap id entries.

(** A validation failure of a string content, as the lenient loop and the
    strict path's validator raise it. *)
Definition validation_failure (maxBytes : Z) (label content : string) (e : AttachmentError)
  : Prop :=
  (e = InvalidBase64Content label /\
   has_illegal_char (normalizeBase64ForDecode content) = true) \/
  (e = ExceedsSizeLimit label (decoded_size content) maxBytes /\
   has_illegal_char (normalizeBase64ForDecode content) = false /\
   (decoded_size content = 0 \/ (maxBytes < Z.of_nat (decoded_size content))%Z)).

(** ** Sample runs of the model *)

Example from_base64_jpeg :
  Buffer.from_base64 "/9j/4AAQ" = [xff; xd8; xff; xe0; x00; x10].
Proof. reflexivity. Qed.

Example from_base64_padded : Buffer.from_base64 "T2dnUw==" = [x4f; x67; x67; x53].
Proof. reflexivity. Qed.

Example trim_example : JS.trim (String (ascii_of_N 9) "  ab c  ") = "ab c".
Proof. reflexivity. Qed.

Example normalizeMime_params :
  normalizeMime (Some " Audio/OGG ; codecs=opus") = Some "audio/ogg".
Proof. reflexivity. Qed.

Example normalize_data_url :
  normalizeBase64ForDecode "  data:image/jpeg;base64,_9j_4A " = "/9j/4A==".
Proof. reflexivity. Qed.

Example normalize_multiline_data_url :
  stripDataUrlPrefix ("data:a;base64,AA" +:+ String "010" "AA")
  = "data:a;base64,AA" +:+ String "010" "AA".
Proof. reflexivity. Qed.

Example sample_lenient_run :
  parseMessageWithAttachments magicDetect "hi"
    (Some [attachment (Some "audio/ogg") "a.ogg" (UString ogg_b64);
           attachment (Some "image/png") "A.png" (UString jpeg_b64);
           attachment None "o.pdf" (UString pdf_b64);
           None;
           attachment (Some "audio/m4a") "m.m4a" (UString mp4_b64);
           attachment None "z" (UString "AAAA")])
    (Some {| opt_maxBytes := None; opt_log := Some [] |})
  = (Some ["attachment A.png: mime mismatch (image/png -> image/jpeg), using sniffed";
           "attachment o.pdf: detected non-image (application/pdf), dropping";
           "attachment z: unable to detect image mime type, dropping"],
     Ok {| message := "hi";
           images := [{| img_type := "image"; img_data := "/9j/4AAQ";
                         img_mimeType := "image/jpeg" |}] |}).
Proof. vm_compute. reflexivity. Qed.

Example sample_legacy_run :
  buildMessageWithAttachments "hi"
    (Some [attachment (Some "image/jpeg") "my pic" (UString jpeg_b64);
           attachment (Some "image/png") "B" (UString png_b64)]) None
  = Ok ("hi" +:+ blank_line +:+ "![my_pic](data:image/jpeg;base64,/9j/4AAQ)" +:+ blank_line
          +:+ "![B](data:image/png;base64,iVBORw0K)").
Proof. vm_compute. reflexivity. Qed.

Example sample_size_message :
  error_message (ExceedsSizeLimit "attachment-2" 9 3)
  = "attachment attachment-2: exceeds size limit (9 > 3 bytes)".
Proof. reflexivity. Qed.

(** ** Facts about the runtime model *)

Lemma append_cons (x : ascii) (a b : string) : String x a +:+ b = String x (a +:+ b).
Proof. reflexivity. Qed.

Lemma append_assoc (a b c : string) : (a +:+ b) +:+ c = a +:+ b +:+ c.
Proof. induction a as [|x a IH]; [done|]. by rewrite !append_cons, IH. Qed.

Lemma includes_intro (pre t post : string) : includes (pre +:+ t +:+ post) t.
Proof. by exists pre, post. Qed.

Lemma existsb_false_weaken (p q : ascii -> bool) (s : string) :
  (forall c, q c = true -> p c = true) ->
  JS.existsb p s = false -> JS.existsb q s = false.
Proof.
  intros Hpq. induction s as [|c r IH]; simpl; [done|].
  intros [Hc Hr]%orb_false_iff. rewrite (IH Hr), orb_false_r.
  destruct (q c) eqn:Hq; [|done]. apply Hpq in Hq. congruence.
Qed.

Lemma base64_char_not_whitespace c : JS.is_whitespace c = true -> negb (is_base64_char c) = true.
Proof. destruct c as [[] [] [] [] [] [] [] []]; vm_compute; congruence. Qed.

Lemma base64_char_not_dash c : Ascii.eqb c "-" = true -> negb (is_base64_char c) = true.
Proof. intros ->%Ascii.eqb_eq. reflexivity. Qed.

Lemma base64_char_not_underscore c : Ascii.eqb c "_" = true -> negb (is_base64_char c) = true.
Proof. intros ->%Ascii.eqb_eq. reflexivity. Qed.

Lemma trimStart_no_whitespace s : JS.existsb JS.is_whitespace s = false -> JS.trimStart s = s.
Proof. destruct s as [|c r]; simpl; [done|]. intros [-> _]%orb_false_iff. done. Qed.

Lemma trimEnd_no_whitespace s : JS.existsb JS.is_whitespace s = false -> JS.trimEnd s = s.
Proof.
  induction s as [|c r IH]; simpl; [done|].
  intros [Hc Hr]%orb_false_iff. rewrite (IH Hr), Hc. by destruct r.
Qed.

Lemma trim_no_whitespace s : JS.existsb JS.is_whitespace s = false -> JS.trim s = s.
Proof.
  intros H. unfold JS.trim. rewrite (trimStart_no_whitespace _ H).
  by apply trimEnd_no_whitespace.
Qed.

Lemma replace_char_absent a b s :
  JS.existsb (fun c => Ascii.eqb c a) s = false -> JS.replace_char a b s = s.
Proof.
  induction s as [|c r IH]; simpl; [done|].
  intros [-> Hr]%orb_false_iff. by rewrite (IH Hr).
Qed.

Lemma strip_prefix_app p s t : strip_prefix p s = Some t <-> s = p +:+ t.
Proof.
  revert s. induction p as [|a p IH]; intros s; cbn [strip_prefix].
  - split; [by intros [= ->]|by intros ->].
  - rewrite append_cons. destruct s as [|b s]; [done|].
    destruct (Ascii.eqb_spec a b) as [<-|Hne].
    + rewrite IH. split; [by intros ->|by intros [= ->]].
    + split; [done|]. intros [= <- _]. done.
Qed.

Lemma split_after_head sep s : s = JS.split_head sep s +:+ after_head sep s.
Proof.
  induction s as [|c r IH]; [done|]. cbn [JS.split_head after_head].
  destruct (Ascii.eqb c sep); [done|]. by rewrite append_cons, <- IH.
Qed.

Lemma split_head_app sep m r :
  JS.existsb (Ascii.eqb sep) m = false ->
  JS.split_head sep (m +:+ String sep r) = m /\
  after_head sep (m +:+ String sep r) = String sep r.
Proof.
  induction m as [|c m IH]; cbn [JS.existsb].
  - intros _. change ("" +:+ String sep r) with (String sep r).
    cbn [JS.split_head after_head]. by rewrite Ascii.eqb_refl.
  - intros [Hc Hm]%orb_false_iff. rewrite append_cons.
    cbn [JS.split_head after_head]. rewrite Ascii.eqb_sym, Hc.
    destruct (IH Hm) as [-> ->]. done.
Qed.

Lemma split_head_no_sep sep s : JS.existsb (Ascii.eqb sep) (JS.split_head sep s) = false.
Proof.
  induction s as [|c r IH]; [done|]. cbn [JS.split_head].
  destruct (Ascii.eqb c sep) eqn:E; [done|].
  cbn [JS.existsb]. by rewrite Ascii.eqb_sym, E, IH.
Qed.

(** The data-URL pattern matches exactly the texts [data:<media>;base64,<rest>]
    with a non-empty [media] free of semicolons and a [rest] free of line
    terminators, and captures [rest]. *)
Lemma exec_data_url_spec s rest :
  exec_data_url s = Some rest <->
  exists media,
    s = "data:" +:+ media +:+ ";base64," +:+ rest /\
    media <> "" /\
    JS.existsb (Ascii.eqb ";") media = false /\
    JS.existsb JS.is_line_terminator rest = false.
Proof.
  unfold exec_data_url. split.
  - destruct (strip_prefix "data:" s) as [t|] eqn:Ht; [|discriminate].
    apply strip_prefix_app in Ht as ->.
    destruct (String.eqb_spec (JS.split_head ";" t) "") as [|Hne]; [discriminate|].
    destruct (strip_prefix ";base64," (after_head ";" t)) as [r|] eqn:Hr; [|discriminate].
    apply strip_prefix_app in Hr.
    destruct (JS.existsb JS.is_line_terminator r) eqn:Hlt; [discriminate|].
    intros [= <-]. exists (JS.split_head ";" t).
    split; [|split; [done|split; [apply split_head_no_sep|done]]].
    by rewrite <- Hr, <- split_after_head.
  - intros (media & -> & Hne & Hfree & Hlt).
    rewrite (proj2 (strip_prefix_app "data:" _ (media +:+ ";base64," +:+ rest)) eq_refl).
    change (";base64," +:+ rest) with (String ";" ("base64," +:+ rest)).
    destruct (split_head_app ";" media ("base64," +:+ rest) Hfree) as [-> ->].
    destruct (String.eqb_spec media "") as [|_]; [done|].
    change (String ";" ("base64," +:+ rest)) with (";base64," +:+ rest).
    rewrite (proj2 (strip_prefix_app ";base64," _ rest) eq_refl). by rewrite Hlt.
Qed.

Lemma data_prefix_illegal s t : strip_prefix "data:" s = Some t -> has_illegal_char s = true.
Proof. intros ->%strip_prefix_app. reflexivity. Qed.

Lemma exec_data_url_legal s : has_illegal_char s = false -> exec_data_url s = None.
Proof.
  intros H. unfold exec_data_url.
  destruct (strip_prefix "data:" s) as [t|] eqn:Hp; [|done].
  apply data_prefix_illegal in Hp. congruence.
Qed.

(** Content that is legal and a multiple of four long once trimmed is left
    as it is by the normalizer, up to the trimming. *)
Lemma normalize_legal_trimmed content :
  has_illegal_char (JS.trim content) = false ->
  String.length (JS.trim content) mod 4 = 0 ->
  normalizeBase64ForDecode content = JS.trim content.
Proof.
  intros Hlegal Hlen. unfold normalizeBase64ForDecode, stripDataUrlPrefix.
  rewrite (exec_data_url_legal _ Hlegal).
  rewrite (trim_no_whitespace (JS.trim content))
    by (revert Hlegal; apply existsb_false_weaken, base64_char_not_whitespace).
  rewrite (replace_char_absent "-")
    by (revert Hlegal; apply existsb_false_weaken, base64_char_not_dash).
  rewrite (replace_char_absent "_")
    by (revert Hlegal; apply existsb_false_weaken, base64_char_not_underscore).
  by rewrite Hlen.
Qed.

Lemma canonical_tail_legal s : canonical_tail s = true -> has_illegal_char s = false.
Proof.
  unfold has_illegal_char.
  induction s as [|c r IH]; simpl; [done|].
  unfold is_standard_char at 1.
  destruct (is_base64_char c) eqn:Hc; destruct (Ascii.eqb c "=") eqn:He; simpl;
    try discriminate.
  - intros [Hr|Hr]%orb_true_iff; apply String.eqb_eq in Hr as ->; reflexivity.
  - apply IH.
  - apply Ascii.eqb_eq in He as ->. discriminate.
Qed.

(** ** How the three loops run over a concatenated list *)

Section Loops.

Variable detectMime : list byte -> option string.

Lemma getFirstAudioAttachment_loop_app maxBytes idx pre rest :
  getFirstAudioAttachment_loop detectMime maxBytes idx (pre ++ rest) =
  match getFirstAudioAttachment_loop detectMime maxBytes idx pre with
  | Ok None => getFirstAudioAttachment_loop detectMime maxBytes (idx + length pre) rest
  | r => r
  end.
Proof.
  revert idx. induction pre as [|entry pre IH]; intros idx; simpl.
  - by rewrite Nat.add_0_r.
  - destruct (getFirstAudioAttachment_iter detectMime maxBytes idx entry) as [[r|]|e];
      simpl; try done.
    rewrite IH. by replace (S idx + length pre) with (idx + S (length pre)) by lia.
Qed.

Lemma getFirstAudioAttachment_some entries maxBytes :
  getFirstAudioAttachment detectMime (Some entries) maxBytes =
  getFirstAudioAttachment_loop detectMime maxBytes 0 entries.
Proof. by destruct entries. Qed.

Lemma parseMessageWithAttachments_loop_app maxBytes log idx pre rest imgs :
  parseMessageWithAttachments_loop detectMime maxBytes log idx (pre ++ rest) imgs =
  match parseMessageWithAttachments_loop detectMime maxBytes log idx pre imgs with
  | (log', Ok imgs') =>
      parseMessageWithAttachments_loop detectMime maxBytes log' (idx + length pre) rest imgs'
  | (log', Throw e) => (log', Throw e)
  end.
Proof.
  revert log idx imgs. induction pre as [|entry pre IH]; intros log idx imgs; simpl.
  - by rewrite Nat.add_0_r.
  - destruct (parseMessageWithAttachments_iter detectMime maxBytes log idx entry)
      as [log' [[img|]|e]]; try done;
      rewrite IH; by replace (S idx + length pre) with (idx + S (length pre)) by lia.
Qed.

Lemma parseMessageWithAttachments_some msg entries opts :
  parseMessageWithAttachments detectMime msg (Some entries) opts =
  match parseMessageWithAttachments_loop detectMime
          (default 5000000%Z (opts ≫= opt_maxBytes)) (opts ≫= opt_log) 0 entries [] with
  | (log', Throw e) => (log', Throw e)
  | (log', Ok imgs) => (log', Ok {| message := msg; images := imgs |})
  end.
Proof. by destruct entries. Qed.

Lemma buildMessageWithAttachments_loop_app maxBytes idx pre rest blocks :
  buildMessageWithAttachments_loop maxBytes idx (pre ++ rest) blocks =
  match buildMessageWithAttachments_loop maxBytes idx pre blocks with
  | Ok blocks' => buildMessageWithAttachments_loop maxBytes (idx + length pre) rest blocks'
  | Throw e => Throw e
  end.
Proof.
  revert idx blocks. induction pre as [|entry pre IH]; intros idx blocks; simpl.
  - by rewrite Nat.add_0_r.
  - destruct (buildMessageWithAttachments_iter maxBytes idx entry) as [[b|]|e]; simpl;
      try done;
      rewrite IH; by replace (S idx + length pre) with (idx + S (length pre)) by lia.
Qed.

Lemma buildMessageWithAttachments_throw msg entries opts e :
  buildMessageWithAttachments_loop (default 2000000%Z (opts ≫= build_maxBytes)) 0 entries []
    = Throw e ->
  buildMessageWithAttachments msg (Some entries) opts = Throw e.
Proof.
  intros H. destruct entries as [|entry rest]; [discriminate|].
  unfold buildMessageWithAttachments. by rewrite H.
Qed.

(** An entry whose content is not a string. *)
Lemma parse_iter_non_string maxBytes log idx att :
  has_string_content att = false ->
  parseMessageWithAttachments_iter detectMime maxBytes log idx (Some att) =
  (log, Throw (ContentMustBeBase64String (label_of (att_fileName att) (att_type att) idx))).
Proof.
  unfold has_string_content, parseMessageWithAttachments_iter.
  destruct (att_content att); intros; first [discriminate | reflexivity].
Qed.

Lemma build_iter_non_string maxBytes idx att :
  has_string_content att = false ->
  buildMessageWithAttachments_iter maxBytes idx (Some att) =
  Throw (ContentMustBeBase64String (label_of (att_fileName att) (att_type att) idx)).
Proof.
  unfold has_string_content, buildMessageWithAttachments_iter.
  destruct (att_content att); intros; first [discriminate | reflexivity].
Qed.

Lemma audio_iter_non_string maxBytes idx att :
  has_string_content att = false ->
  getFirstAudioAttachment_iter detectMime maxBytes idx (Some att) = Ok None.
Proof.
  unfold has_string_content, getFirstAudioAttachment_iter.
  destruct (att_content att); intros; first [discriminate | reflexivity].
Qed.

End Loops.

(** ** C9: the normalizer leaves canonical base64 alone *)

(** C9. For every string that is already canonical base64 (standard
    alphabet, padded with at most two [=] to a multiple of four, hence no
    data-URL prefix and no surrounding whitespace), the content normalizer
    returns the identical string; applying it twice changes nothing
    either. *)
Theorem C9_normalize_canonical (s : string) :
  is_canonical_base64 s = true ->
  normalizeBase64ForDecode s = s /\
  normalizeBase64ForDecode (normalizeBase64ForDecode s) = normalizeBase64ForDecode s.
Proof.
  unfold is_canonical_base64. intros [Hlen Htail]%andb_true_iff.
  apply Nat.eqb_eq in Hlen. apply canonical_tail_legal in Htail.
  assert (Htrim : JS.trim s = s).
  { apply trim_no_whitespace. revert Htail.
    apply existsb_false_weaken, base64_char_not_whitespace. }
  assert (Hn : normalizeBase64ForDecode s = s).
  { rewrite <- Htrim at 2. apply normalize_legal_trimmed; by rewrite Htrim. }
  by rewrite !Hn.
Qed.

Lemma C9_normalize_canonical_witness :
  is_canonical_base64 "T2dnUw==" = true /\
  normalizeBase64ForDecode "T2dnUw==" = "T2dnUw==".
Proof.
  split; [reflexivity|].
  exact (proj1 (C9_normalize_canonical "T2dnUw==" eq_refl)).
Defined.

(** Outside the canonical texts the normalizer is not idempotent: a second
    data-URL prefix is stripped by a second pass. *)
Example normalize_twice_differs :
  normalizeBase64ForDecode "data:a;base64,data:b;base64,AAAA" = "data:b;base64,AAAA=="
  /\ normalizeBase64ForDecode "data:b;base64,AAAA==" = "AAAA====".
Proof. split; reflexivity. Qed.

(** ** C1: content that is not a string *)

(** C1, as stated, fails on the strict path: an attachment whose content is
    a binary value is passed over by [getFirstAudioAttachment], which goes
    on to select the next attachment instead of failing. *)
Lemma C1_strict_path_skips_non_string :
  let voice := attachment (Some "audio/ogg") "voice.ogg" (UBinary [x4f; x67; x67; x53]) in
  let next := attachment (Some "audio/ogg") "next.ogg" (UString ogg_b64) in
  getFirstAudioAttachment magicDetect (Some [voice]) 5000000 = Ok None /\
  getFirstAudioAttachment magicDetect (Some [voice; next]) 5000000
  = Ok (Some {| buffer := Buffer.from_base64 ogg_b64; mimeType := "audio/ogg" |}).
Proof. split; vm_compute; reflexivity. Qed.

(** C1 (amended). Let a list hold an attachment whose content is not a
    string.  On the lenient path and on the legacy path the call always
    fails, and it fails with UnsupportedContentShape naming that attachment
    when every earlier attachment is processed without error.  On the strict
    first-audio path the attachment is skipped and the scan continues with
    the attachment after it. *)
Theorem C1_non_string_content (detectMime : list byte -> option string)
    (att : ChatAttachment) (pre post : list (option ChatAttachment)) :
  has_string_content att = false ->
  let entries := pre ++ Some att :: post in
  let label := label_of (att_fileName att) (att_type att) (length pre) in
  (forall msg opts, exists log' e,
      parseMessageWithAttachments detectMime msg (Some entries) opts = (log', Throw e) /\
      forall log1 imgs,
        parseMessageWithAttachments_loop detectMime
          (default 5000000%Z (opts ≫= opt_maxBytes)) (opts ≫= opt_log) 0 pre []
        = (log1, Ok imgs) ->
        log' = log1 /\ e = ContentMustBeBase64String label /\
        error_kind e = UnsupportedContentShape) /\
  (forall msg opts, exists e,
      buildMessageWithAttachments msg (Some entries) opts = Throw e /\
      forall blocks,
        buildMessageWithAttachments_loop
          (default 2000000%Z (opts ≫= build_maxBytes)) 0 pre [] = Ok blocks ->
        e = ContentMustBeBase64String label /\ error_kind e = UnsupportedContentShape) /\
  (forall maxBytes,
      getFirstAudioAttachment_iter detectMime maxBytes (length pre) (Some att) = Ok None /\
      (getFirstAudioAttachment_loop detectMime maxBytes 0 pre = Ok None ->
       getFirstAudioAttachment detectMime (Some entries) maxBytes
       = getFirstAudioAttachment_loop detectMime maxBytes (S (length pre)) post)).
Proof.
  intros Hns entries label. split; [|split].
  - intros msg opts. rewrite parseMessageWithAttachments_some. unfold entries.
    rewrite parseMessageWithAttachments_loop_app.
    destruct (parseMessageWithAttachments_loop _ _ _ 0 pre []) as [log1 [imgs|e]].
    + cbn [parseMessageWithAttachments_loop]. rewrite parse_iter_non_string by done.
      eexists _, _. split; [reflexivity|]. intros ? ? [= <- _]. done.
    + eexists _, _. split; [reflexivity|]. intros ? ? [= _ ?].
  - intros msg opts. unfold entries.
    destruct (buildMessageWithAttachments_loop
                (default 2000000%Z (opts ≫= build_maxBytes)) 0 pre []) as [blocks|e] eqn:Hpre.
    + exists (ContentMustBeBase64String label). split; [|done].
      apply buildMessageWithAttachments_throw.
      rewrite buildMessageWithAttachments_loop_app, Hpre.
      cbn [buildMessageWithAttachments_loop]. by rewrite build_iter_non_string.
    + exists e. split; [|done].
      apply buildMessageWithAttachments_throw.
      by rewrite buildMessageWithAttachments_loop_app, Hpre.
  - intros maxBytes. split; [by apply audio_iter_non_string|].
    intros Hpre. rewrite getFirstAudioAttachment_some. unfold entries.
    rewrite getFirstAudioAttachment_loop_app, Hpre.
    cbn [getFirstAudioAttachment_loop]. by rewrite audio_iter_non_string.
Qed.

Lemma C1_non_string_content_witness :
  let photo := attachment (Some "image/jpeg") "photo.jpg" (UString jpeg_b64) in
  let blob := {| att_type := None; att_mimeType := Some "image/png";
                 att_fileName := Some "blob.png"; att_content := UBinary [x89; x50] |} in
  let voice := attachment (Some "audio/ogg") "voice.ogg" (UString ogg_b64) in
  has_string_content blob = false /\
  parseMessageWithAttachments magicDetect "hi" (Some [photo; Some blob; voice]) None
  = (None, Throw (ContentMustBeBase64String "blob.png")) /\
  buildMessageWithAttachments "hi" (Some [photo; Some blob; voice]) None
  = Throw (ContentMustBeBase64String "blob.png") /\
  getFirstAudioAttachment magicDetect (Some [photo; Some blob; voice]) 5000000
  = Ok (Some {| buffer := Buffer.from_base64 ogg_b64; mimeType := "audio/ogg" |}).
Proof.
  intros photo blob voice.
  pose proof (C1_non_string_content magicDetect blob [photo] [voice] eq_refl)
    as (Hparse & Hbuild & Haudio).
  cbn [app length] in Hparse, Hbuild, Haudio.
  split; [reflexivity|]. split; [|split].
  - destruct (Hparse "hi" None) as (log' & e & -> & Hpre).
    destruct (Hpre None [{| img_type := "image"; img_data := jpeg_b64;
                            img_mimeType := "image/jpeg" |}]) as (-> & -> & _);
      [vm_compute; reflexivity|]. reflexivity.
  - destruct (Hbuild "hi" None) as (e & -> & Hpre).
    destruct (Hpre ["![photo.jpg](data:image/jpeg;base64,/9j/4AAQ)"]) as (-> & _);
      [vm_compute; reflexivity|]. reflexivity.
  - destruct (Haudio 5000000%Z) as (_ & ->); vm_compute; reflexivity.
Defined.

(** ** C7: the strict path returns the first qualifying attachment *)

Section FirstByIndex.

Variable detectMime : list byte -> option string.
Variable maxBytes : Z.

Local Abbreviation iter := (getFirstAudioAttachment_iter detectMime maxBytes).
Local Abbreviation loop := (getFirstAudioAttachment_loop detectMime maxBytes).

Lemma loop_cons idx entry rest :
  loop idx (entry :: rest) =
  match iter idx entry with
  | Ok None => loop (S idx) rest
  | r => r
  end.
Proof. cbn [getFirstAudioAttachment_loop]. by destruct (iter idx entry) as [[r|]|e]. Qed.

Lemma loop_none idx entries :
  loop idx entries = Ok None <->
  forall i entry, entries !! i = Some entry -> iter (idx + i) entry = Ok None.
Proof.
  revert idx. induction entries as [|entry rest IH]; intros idx.
  - split; [|done]. intros _ i entry'. by rewrite lookup_nil.
  - rewrite loop_cons. split.
    + intros H [|i] entry' Hi; simpl in Hi.
      * injection Hi as <-. rewrite Nat.add_0_r.
        by destruct (iter idx entry) as [[r|]|e].
      * destruct (iter idx entry) as [[r|]|e]; try discriminate.
        replace (idx + S i) with (S idx + i) by lia.
        by apply (proj1 (IH (S idx)) H).
    + intros H. rewrite <- (Nat.add_0_r idx) at 1. rewrite (H 0 entry eq_refl).
      apply IH. intros i entry' Hi.
      replace (S idx + i) with (idx + S i) by lia. by apply H.
Qed.

Lemma loop_some idx entries r :
  loop idx entries = Ok (Some r) <->
  exists i entry,
    entries !! i = Some entry /\ iter (idx + i) entry = Ok (Some r) /\
    forall j earlier, j < i -> entries !! j = Some earlier -> iter (idx + j) earlier = Ok None.
Proof.
  revert idx. induction entries as [|entry rest IH]; intros idx.
  - split; [discriminate|]. intros (i & entry' & Hi & _). by rewrite lookup_nil in Hi.
  - rewrite loop_cons. split.
    + destruct (iter idx entry) as [[r'|]|e] eqn:Hit; try discriminate.
      * intros [= ->]. exists 0, entry. rewrite Nat.add_0_r. repeat split; [done|]. lia.
      * intros (i & entry' & Hi & Hr & Hbefore)%IH.
        exists (S i), entry'. replace (idx + S i) with (S idx + i) by lia.
        repeat split; [done..|]. intros [|j] earlier Hj Hlk; simpl in Hlk.
        -- injection Hlk as <-. by rewrite Nat.add_0_r.
        -- replace (idx + S j) with (S idx + j) by lia. apply Hbefore; [lia|done].
    + intros ([|i] & entry' & Hi & Hr & Hbefore); simpl in Hi.
      * injection Hi as <-. rewrite Nat.add_0_r in Hr. by rewrite Hr.
      * assert (H0 : iter idx entry = Ok None).
        { rewrite <- (Nat.add_0_r idx). apply (Hbefore 0 entry); [lia|done]. }
        rewrite H0. apply IH. exists i, entry'.
        replace (S idx + i) with (idx + S i) by lia. repeat split; [done..|].
        intros j earlier Hj Hlk. replace (S idx + j) with (idx + S j) by lia.
        apply Hbefore; [lia|done].
Qed.

End FirstByIndex.

(** C7. [getFirstAudioAttachment] returns none for an absent or empty list;
    it returns none exactly when no attachment of the list qualifies (every
    iteration falls through); and it returns [r] exactly when [r] is what
    the attachment of smallest index that qualifies yields, every attachment
    before it falling through.  For the list [image, audio_X, audio_Y] it
    returns the buffer of audio_X. *)
Theorem C7_first_audio_by_index (detectMime : list byte -> option string) (maxBytes : Z) :
  getFirstAudioAttachment detectMime None maxBytes = Ok None /\
  getFirstAudioAttachment detectMime (Some []) maxBytes = Ok None /\
  (forall entries,
      getFirstAudioAttachment detectMime (Some entries) maxBytes = Ok None <->
      forall i entry, entries !! i = Some entry ->
        getFirstAudioAttachment_iter detectMime maxBytes i entry = Ok None) /\
  (forall entries r,
      getFirstAudioAttachment detectMime (Some entries) maxBytes = Ok (Some r) <->
      exists i entry,
        entries !! i = Some entry /\
        getFirstAudioAttachment_iter detectMime maxBytes i entry = Ok (Some r) /\
        forall j earlier, j < i -> entries !! j = Some earlier ->
          getFirstAudioAttachment_iter detectMime maxBytes j earlier = Ok None) /\
  (let image := attachment (Some "image/jpeg") "photo.jpg" (UString jpeg_b64) in
   let audio_X := attachment (Some "audio/ogg") "x.ogg" (UString ogg_b64) in
   let audio_Y := attachment (Some "audio/ogg") "y.ogg" (UString ogg2_b64) in
   getFirstAudioAttachment magicDetect (Some [image; audio_X; audio_Y]) 5000000
   = Ok (Some {| buffer := [x4f; x67; x67; x53; x00; x02]; mimeType := "audio/ogg" |}) /\
   getFirstAudioAttachment magicDetect (Some [audio_Y]) 5000000
   = Ok (Some {| buffer := [x4f; x67; x67; x53; x00; x03]; mimeType := "audio/ogg" |})).
Proof.
  split; [done|]. split; [done|]. split; [|split].
  - intros entries. rewrite getFirstAudioAttachment_some. apply loop_none.
  - intros entries r. rewrite getFirstAudioAttachment_some. apply loop_some.
  - split; vm_compute; reflexivity.
Qed.

(** ** C8: the image list is the input list, filtered, in order *)

Section ImageOrder.

Variable detectMime : list byte -> option string.
Variable maxBytes : Z.

Local Abbreviation piter := (parseMessageWithAttachments_iter detectMime maxBytes).
Local Abbreviation ploop := (parseMessageWithAttachments_loop detectMime maxBytes).

Local Ltac split_ifs :=
  repeat match goal with
         | |- context [if ?b then _ else _] => destruct b
         end.

(** What an iteration pushes or throws does not depend on the sink. *)
Lemma parse_iter_snd log idx entry :
  snd (piter log idx entry) = snd (piter None idx entry).
Proof.
  unfold parseMessageWithAttachments_iter.
  destruct entry as [att|]; [|done].
  destruct (att_content att); try reflexivity.
  split_ifs; reflexivity.
Qed.

Lemma parse_iter_kept log idx entry :
  kept_image detectMime maxBytes idx entry =
  match piter log idx entry with
  | (_, Ok (Some img)) => Some img
  | _ => None
  end.
Proof.
  unfold kept_image. rewrite <- (parse_iter_snd log).
  by destruct (piter log idx entry) as [? [[?|]|?]].
Qed.

Lemma snd_if {A B} (b : bool) (x y : A * B) :
  snd (if b then x else y) = if b then snd x else snd y.
Proof. by destruct b. Qed.

(** A kept image carries the canonical text of its attachment. *)
Lemma kept_image_data idx entry img :
  kept_image detectMime maxBytes idx entry = Some img ->
  entry_data entry = Some (img_data img) /\ img_type img = "image".
Proof.
  unfold kept_image, parseMessageWithAttachments_iter, entry_data.
  destruct entry as [att|]; [|discriminate].
  destruct (att_content att); try discriminate.
  rewrite !snd_if. cbn [snd].
  split_ifs; try discriminate.
  intros H%(inj Some). rewrite <- H. cbn [img_data img_type]. by split.
Qed.

Lemma omap_imap_cons {A B} (f : nat -> A -> option B) (x : A) (l : list A) :
  omap id (imap f (x :: l)) =
  match f 0 x with
  | Some y => y :: omap id (imap (f ∘ S) l)
  | None => omap id (imap (f ∘ S) l)
  end.
Proof. reflexivity. Qed.

Lemma parse_loop_images log idx entries imgs log' out :
  ploop log idx entries imgs = (log', Ok out) ->
  out = imgs ++ omap id (imap (fun i => kept_image detectMime maxBytes (idx + i)) entries).
Proof.
  revert log idx imgs out. induction entries as [|entry rest IH]; intros log idx imgs out.
  - intros [= _ <-]. by rewrite app_nil_r.
  - cbn [parseMessageWithAttachments_loop]. rewrite omap_imap_cons.
    rewrite Nat.add_0_r, (parse_iter_kept log idx entry).
    assert (Hext : imap ((fun i => kept_image detectMime maxBytes (idx + i)) ∘ S) rest
                   = imap (fun i => kept_image detectMime maxBytes (S idx + i)) rest).
    { apply imap_ext. intros i e _. cbn. f_equal. lia. }
    rewrite Hext.
    destruct (piter log idx entry) as [log1 [[img|]|e]]; [| |discriminate].
    + intros Hrest. apply IH in Hrest as ->. by rewrite <- app_assoc.
    + intros Hrest. by apply IH in Hrest as ->.
Qed.

Lemma kept_images_sublist (f : nat -> option ChatAttachment -> option ChatImageContent)
    (entries : list (option ChatAttachment)) :
  (forall i e img, f i e = Some img -> entry_data e = Some (img_data img)) ->
  exists kept,
    sublist kept entries /\
    Forall2 (fun e img => entry_data e = Some (img_data img)) kept (omap id (imap f entries)).
Proof.
  revert f. induction entries as [|entry rest IH]; intros f Hf.
  - exists []. split; constructor.
  - destruct (IH (f ∘ S)) as (kept & Hsub & Hall); [intros i e img; apply Hf|].
    rewrite omap_imap_cons. destruct (f 0 entry) as [img|] eqn:H0.
    + exists (entry :: kept). split; [by constructor|].
      constructor; [by apply (Hf 0)|done].
    + exists kept. split; [by constructor|done].
Qed.

End ImageOrder.

(** C8. Whenever the lenient path returns, the message text is the one it
    was given, the image list holds exactly the images kept for the entries
    of the input list, in input order, and it corresponds one to one to a
    sub-sequence of the input list, each image carrying the canonical text
    of its attachment. *)
Theorem C8_images_subsequence (detectMime : list byte -> option string)
    (msg : string) (attachments : option (list (option ChatAttachment)))
    (opts : option ParseOpts) (log' : option AttachmentLog) (out : ParsedMessageWithImages) :
  parseMessageWithAttachments detectMime msg attachments opts = (log', Ok out) ->
  let entries := default [] attachments in
  let maxBytes := default 5000000%Z (opts ≫= opt_maxBytes) in
  message out = msg /\
  images out = omap id (imap (kept_image detectMime maxBytes) entries) /\
  exists kept,
    sublist kept entries /\
    Forall2 (fun entry img => entry_data entry = Some (img_data img)) kept (images out).
Proof.
  intros H entries maxBytes.
  assert (Himgs : message out = msg /\
                  images out = omap id (imap (kept_image detectMime maxBytes) entries)).
  { destruct attachments as [l|]; [|by injection H as _ <-].
    rewrite parseMessageWithAttachments_some in H.
    destruct (parseMessageWithAttachments_loop _ _ _ 0 l []) as [log1 [imgs|e]] eqn:Hloop;
      [|discriminate].
    injection H as _ <-. split; [done|].
    by apply parse_loop_images in Hloop as ->. }
  destruct Himgs as [Hmsg Himgs]. split; [done|]. split; [done|].
  rewrite Himgs. apply kept_images_sublist.
  intros i e img Hk. by apply (kept_image_data detectMime maxBytes i).
Qed.

Lemma C8_images_subsequence_witness :
  let audio := attachment (Some "audio/ogg") "voice.ogg" (UString ogg_b64) in
  let image_A := attachment (Some "image/jpeg") "a.jpg" (UString jpeg_b64) in
  let other := attachment None "doc.pdf" (UString pdf_b64) in
  let image_B := attachment (Some "image/png") "b.png" (UString png_b64) in
  let A := {| img_type := "image"; img_data := jpeg_b64; img_mimeType := "image/jpeg" |} in
  let B := {| img_type := "image"; img_data := png_b64; img_mimeType := "image/png" |} in
  parseMessageWithAttachments magicDetect "hello" (Some [audio; image_A; other; image_B]) None
  = (None, Ok {| message := "hello"; images := [A; B] |}) /\
  exists kept, sublist kept [audio; image_A; other; image_B] /\
               Forall2 (fun entry img => entry_data entry = Some (img_data img)) kept [A; B].
Proof.
  intros audio image_A other image_B A B.
  assert (Hrun : parseMessageWithAttachments magicDetect "hello"
                   (Some [audio; image_A; other; image_B]) None
                 = (None, Ok {| message := "hello"; images := [A; B] |}))
    by (vm_compute; reflexivity).
  split; [exact Hrun|].
  exact (proj2 (proj2 (C8_images_subsequence magicDetect "hello"
                         (Some [audio; image_A; other; image_B]) None None _ Hrun))).
Defined.

(** ** Facts about MIME normalization and validation *)

Lemma normalizeMime_default (o : option string) :
  normalizeMime (Some (default "" o)) = normalizeMime o.
Proof. by destruct o. Qed.

Lemma normalizeMime_truthy o m : normalizeMime o = Some m -> JS.truthy (Some m) = true.
Proof.
  unfold normalizeMime. destruct o as [s|]; [|discriminate].
  destruct (String.eqb s ""); [discriminate|].
  destruct (String.eqb (JS.toLowerCase _) "") eqn:E; [discriminate|].
  intros [= <-]. simpl. by rewrite E.
Qed.

Lemma isAudioMime_truthy o : isAudioMime o = true -> JS.truthy o = true.
Proof. by destruct o as [[|c s]|]. Qed.

Lemma size_accepted (size : nat) (maxBytes : Z) :
  (1 <= Z.of_nat size <= maxBytes)%Z -> size_rejected size maxBytes = false.
Proof. unfold size_rejected. intros H. apply orb_false_iff. split; lia. Qed.

Lemma size_refused (size : nat) (maxBytes : Z) :
  size = 0 \/ (maxBytes < Z.of_nat size)%Z -> size_rejected size maxBytes = true.
Proof. unfold size_rejected. intros H. apply orb_true_iff. lia. Qed.

Section Iterations.

Variable detectMime : list byte -> option string.
Variable maxBytes : Z.

(** The iteration of the lenient loop on a valid string content, with the
    declared and the sniffed type named. *)
Lemma parse_iter_valid log idx att content :
  att_content att = UString content ->
  valid_content content maxBytes ->
  let label := label_of (att_fileName att) (att_type att) idx in
  let b64 := normalizeBase64ForDecode content in
  let providedMime := normalizeMime (att_mimeType att) in
  let sniffedMime := normalizeMime (sniffMimeFromBase64 detectMime b64) in
  parseMessageWithAttachments_iter detectMime maxBytes log idx (Some att) =
  if JS.truthy sniffedMime && negb (isImageMime sniffedMime) then
    ((if negb (isAudioMime sniffedMime)
         && negb (isAudioMime providedMime && opt_eqb sniffedMime (Some "video/mp4"))
      then warn log ("attachment " +:+ label +:+ ": detected non-image ("
                       +:+ render sniffedMime +:+ "), dropping")
      else log), Ok None)
  else if negb (JS.truthy sniffedMime) && negb (isImageMime providedMime) then
    ((if negb (isAudioMime providedMime)
      then warn log ("attachment " +:+ label
                       +:+ ": unable to detect image mime type, dropping")
      else log), Ok None)
  else
    ((if JS.truthy sniffedMime && JS.truthy providedMime
         && negb (opt_eqb sniffedMime providedMime)
      then warn log ("attachment " +:+ label +:+ ": mime mismatch ("
                       +:+ render providedMime +:+ " -> " +:+ render sniffedMime
                       +:+ "), using sniffed")
      else log),
     Ok (Some {| img_type := "image"; img_data := b64;
                 img_mimeType :=
                   match sniffedMime with
                   | Some m => m
                   | None => match providedMime with
                             | Some m => m
                             | None => default "" (att_mimeType att)
                             end
                   end |})).
Proof.
  intros Hc [Hlegal Hsize]. unfold parseMessageWithAttachments_iter.
  rewrite Hc, Hlegal. fold (decoded_size content).
  rewrite (size_accepted _ _ Hsize), normalizeMime_default. reflexivity.
Qed.

(** Which valid attachments the lenient path keeps: those whose sniffed type
    is an image type, and, when nothing could be sniffed, those whose
    declared type is one. *)
Lemma kept_image_classified idx att content :
  att_content att = UString content ->
  valid_content content maxBytes ->
  let providedMime := normalizeMime (att_mimeType att) in
  let sniffedMime :=
    normalizeMime (sniffMimeFromBase64 detectMime (normalizeBase64ForDecode content)) in
  is_Some (kept_image detectMime maxBytes idx (Some att)) <->
  (if JS.truthy sniffedMime then isImageMime sniffedMime else isImageMime providedMime) = true.
Proof.
  intros Hc Hvalid providedMime sniffedMime. unfold kept_image.
  rewrite (parse_iter_valid _ _ _ _ Hc Hvalid).
  fold providedMime sniffedMime.
  destruct (JS.truthy sniffedMime), (isImageMime sniffedMime), (isImageMime providedMime);
    cbn [andb negb snd]; split; try done; try (intros [? [=]]); by eexists.
Qed.

(** The strict path's validator on a valid content. *)
Lemma decode_valid (natt : NormalizedAttachment) idx :
  valid_content (norm_content natt) maxBytes ->
  let buf := Buffer.from_base64 (normalizeBase64ForDecode (norm_content natt)) in
  let resolved :=
    match normalizeMime (norm_mimeType natt) with
    | Some m => m
    | None => default "audio/octet-stream" (detectMime buf)
    end in
  decodeAndValidateAudioAttachment detectMime natt idx maxBytes =
  if isAudioMime (Some resolved)
  then Ok (Some {| buffer := buf; mimeType := resolved |})
  else Ok None.
Proof.
  intros [Hlegal Hsize]. unfold decodeAndValidateAudioAttachment.
  rewrite Hlegal. fold (decoded_size (norm_content natt)).
  rewrite (size_accepted _ _ Hsize).
  destruct (normalizeMime (norm_mimeType natt)) as [m|].
  - by destruct (isAudioMime (Some m)).
  - destruct (detectMime _) as [m|]; cbn [default from_option id].
    + by destruct (isAudioMime (Some m)).
    + reflexivity.
Qed.

(** The strict path's validator on a content of rejected size. *)
Lemma decode_size_rejected (natt : NormalizedAttachment) idx :
  has_illegal_char (normalizeBase64ForDecode (norm_content natt)) = false ->
  decoded_size (norm_content natt) = 0
    \/ (maxBytes < Z.of_nat (decoded_size (norm_content natt)))%Z ->
  decodeAndValidateAudioAttachment detectMime natt idx maxBytes =
  Throw (ExceedsSizeLimit (label_of (norm_fileName natt) (norm_type natt) idx)
           (decoded_size (norm_content natt)) maxBytes).
Proof.
  intros Hlegal Hsize. unfold decodeAndValidateAudioAttachment.
  rewrite Hlegal. fold (decoded_size (norm_content natt)).
  by rewrite (size_refused _ _ Hsize).
Qed.

(** The iteration of the strict loop, with the two candidate tests named. *)
Lemma audio_iter_string idx att content :
  att_content att = UString content ->
  let natt := {| norm_type := att_type att; norm_mimeType := att_mimeType att;
                 norm_fileName := att_fileName att; norm_content := content |} in
  getFirstAudioAttachment_iter detectMime maxBytes idx (Some att) =
  match (if isAudioMime (normalizeMime (att_mimeType att))
         then decodeAndValidateAudioAttachment detectMime natt idx maxBytes
         else Ok None) with
  | Throw e => Throw e
  | Ok (Some r) => Ok (Some r)
  | Ok None =>
      if isAudioMime (normalizeMime (sniffMimeFromBase64 detectMime content))
      then decodeAndValidateAudioAttachment detectMime natt idx maxBytes
      else Ok None
  end.
Proof.
  intros Hc natt. unfold getFirstAudioAttachment_iter.
  rewrite Hc, normalizeMime_default. fold natt.
  assert (Ht : forall o, JS.truthy o && isAudioMime o = isAudioMime o).
  { intros o. destruct (isAudioMime o) eqn:Ha; [|apply andb_false_r].
    by rewrite (isAudioMime_truthy _ Ha). }
  rewrite !Ht.
  destruct (isAudioMime (normalizeMime (att_mimeType att))); [|reflexivity].
  by destruct (decodeAndValidateAudioAttachment detectMime natt idx maxBytes) as [[r|]|e].
Qed.

End Iterations.

(** ** C4: audio declared, MPEG-4 container sniffed *)

(** C4. A valid attachment whose declared type is audio and whose bytes
    sniff as [video/mp4] is audio for both paths.  The lenient path moves on
    to the next attachment with the same sink and the same image list (no
    image, no warning); the strict path selects it, with its declared type,
    as soon as no earlier attachment has been selected or has failed. *)
Theorem C4_container_override (detectMime : list byte -> option string) (maxBytes : Z)
    (att : ChatAttachment) (content declared : string) :
  att_content att = UString content ->
  valid_content content maxBytes ->
  normalizeMime (att_mimeType att) = Some declared ->
  isAudioMime (Some declared) = true ->
  normalizeMime (sniffMimeFromBase64 detectMime (normalizeBase64ForDecode content))
    = Some "video/mp4" ->
  let selected := {| buffer := Buffer.from_base64 (normalizeBase64ForDecode content);
                     mimeType := declared |} in
  (forall log idx,
      parseMessageWithAttachments_iter detectMime maxBytes log idx (Some att)
      = (log, Ok None)) /\
  (forall log idx rest imgs,
      parseMessageWithAttachments_loop detectMime maxBytes log idx (Some att :: rest) imgs
      = parseMessageWithAttachments_loop detectMime maxBytes log (S idx) rest imgs) /\
  (forall idx, kept_image detectMime maxBytes idx (Some att) = None) /\
  (forall idx,
      getFirstAudioAttachment_iter detectMime maxBytes idx (Some att) = Ok (Some selected)) /\
  (forall pre post,
      getFirstAudioAttachment_loop detectMime maxBytes 0 pre = Ok None ->
      getFirstAudioAttachment detectMime (Some (pre ++ Some att :: post)) maxBytes
      = Ok (Some selected)).
Proof.
  intros Hc Hvalid Hdecl Haudio Hsniff selected.
  assert (Hiter : forall log idx,
             parseMessageWithAttachments_iter detectMime maxBytes log idx (Some att)
             = (log, Ok None)).
  { intros log idx. rewrite (parse_iter_valid _ _ _ _ _ _ Hc Hvalid).
    rewrite Hdecl, Hsniff, Haudio. reflexivity. }
  assert (Hsel : forall idx,
             getFirstAudioAttachment_iter detectMime maxBytes idx (Some att)
             = Ok (Some selected)).
  { intros idx. rewrite (audio_iter_string _ _ _ _ _ Hc).
    rewrite Hdecl, Haudio, decode_valid by done.
    cbn [norm_mimeType norm_content]. by rewrite Hdecl, Haudio. }
  split; [done|]. split; [|split; [|split; [done|]]].
  - intros log idx rest imgs. cbn [parseMessageWithAttachments_loop]. by rewrite Hiter.
  - intros idx. unfold kept_image. by rewrite Hiter.
  - intros pre post Hpre.
    rewrite getFirstAudioAttachment_some, getFirstAudioAttachment_loop_app, Hpre.
    by rewrite loop_cons, Hsel.
Qed.

Lemma C4_container_override_witness :
  let m4a := {| att_type := None; att_mimeType := Some "audio/m4a";
                att_fileName := Some "memo.m4a"; att_content := UString mp4_b64 |} in
  let photo := attachment (Some "image/jpeg") "photo.jpg" (UString jpeg_b64) in
  parseMessageWithAttachments magicDetect "hi" (Some [Some m4a; photo])
    (Some {| opt_maxBytes := None; opt_log := Some [] |})
  = (Some [], Ok {| message := "hi";
                    images := [{| img_type := "image"; img_data := jpeg_b64;
                                  img_mimeType := "image/jpeg" |}] |}) /\
  getFirstAudioAttachment magicDetect (Some [photo; Some m4a]) 5000000
  = Ok (Some {| buffer := Buffer.from_base64 mp4_b64; mimeType := "audio/m4a" |}).
Proof.
  intros m4a photo.
  assert (Hvalid : valid_content mp4_b64 5000000).
  { split; [reflexivity|]. vm_compute. split; discriminate. }
  pose proof (C4_container_override magicDetect 5000000 m4a mp4_b64 "audio/m4a"
                eq_refl Hvalid eq_refl eq_refl eq_refl) as (_ & Hloop & _ & _ & Hfirst).
  split.
  - rewrite parseMessageWithAttachments_some.
    change (default 5000000%Z _) with 5000000%Z. rewrite Hloop. vm_compute. reflexivity.
  - apply (Hfirst [photo] []). vm_compute. reflexivity.
Defined.

(** ** C5: declared and sniffed image types differ *)

Section Sink.

Variable detectMime : list byte -> option string.
Variable maxBytes : Z.

Lemma fst_if {A B} (b : bool) (x y : A * B) :
  fst (if b then x else y) = if b then fst x else fst y.
Proof. by destruct b. Qed.

Lemma extends_refl log : extends log log.
Proof. destruct log as [l|]; [|done]. exists []. by rewrite app_nil_r. Qed.

Lemma extends_warn log msg : extends log (warn log msg).
Proof. destruct log as [l|]; [|done]. by exists [msg]. Qed.

Lemma extends_trans a b c : extends a b -> extends b c -> extends a c.
Proof.
  destruct a as [l|]; simpl.
  - intros [m1 ->] [m2 ->]. exists (m1 ++ m2). by rewrite app_assoc.
  - by intros ->.
Qed.

Lemma parse_iter_extends log idx entry :
  extends log (fst (parseMessageWithAttachments_iter detectMime maxBytes log idx entry)).
Proof.
  unfold parseMessageWithAttachments_iter.
  destruct entry as [att|]; [|apply extends_refl].
  destruct (att_content att); try apply extends_refl.
  rewrite !fst_if. cbn [fst].
  repeat match goal with
         | |- context [if ?b then _ else _] => destruct b
         end; first [apply extends_refl | apply extends_warn].
Qed.

Lemma parse_loop_extends log idx entries imgs :
  extends log (fst (parseMessageWithAttachments_loop detectMime maxBytes log idx entries imgs)).
Proof.
  revert log idx imgs. induction entries as [|entry rest IH]; intros log idx imgs.
  - apply extends_refl.
  - cbn [parseMessageWithAttachments_loop].
    pose proof (parse_iter_extends log idx entry) as Hit.
    destruct (parseMessageWithAttachments_iter detectMime maxBytes log idx entry)
      as [log1 [[img|]|e]]; cbn [fst] in Hit; try done;
      eapply extends_trans; [exact Hit|apply IH|exact Hit|apply IH].
Qed.

End Sink.

(** C5. In the lenient path, a valid attachment whose declared and sniffed
    types are both present, both image types, and different is kept with the
    sniffed type, and a warning naming the attachment and the two types goes
    to the sink; the loop continues with the next attachment.  When the call
    returns, the image is in its image list and, if a sink was passed, the
    warning is in the sink. *)
Theorem C5_mismatch_sniff_wins (detectMime : list byte -> option string)
    (opts : option ParseOpts) (pre post : list (option ChatAttachment))
    (att : ChatAttachment) (content declared sniffed : string) :
  let maxBytes := default 5000000%Z (opts ≫= opt_maxBytes) in
  let idx := length pre in
  att_content att = UString content ->
  valid_content content maxBytes ->
  normalizeMime (att_mimeType att) = Some declared ->
  normalizeMime (sniffMimeFromBase64 detectMime (normalizeBase64ForDecode content))
    = Some sniffed ->
  isImageMime (Some declared) = true ->
  isImageMime (Some sniffed) = true ->
  declared <> sniffed ->
  let label := label_of (att_fileName att) (att_type att) idx in
  let warning := "attachment " +:+ label +:+ ": mime mismatch (" +:+ declared +:+ " -> "
                   +:+ sniffed +:+ "), using sniffed" in
  let img := {| img_type := "image"; img_data := normalizeBase64ForDecode content;
                img_mimeType := sniffed |} in
  (forall log,
      parseMessageWithAttachments_iter detectMime maxBytes log idx (Some att)
      = (warn log warning, Ok (Some img))) /\
  (forall log rest imgs,
      parseMessageWithAttachments_loop detectMime maxBytes log idx (Some att :: rest) imgs
      = parseMessageWithAttachments_loop detectMime maxBytes (warn log warning) (S idx) rest
          (imgs ++ [img])) /\
  (includes warning label /\ includes warning declared /\ includes warning sniffed) /\
  (forall msg log' out,
      parseMessageWithAttachments detectMime msg (Some (pre ++ Some att :: post)) opts
      = (log', Ok out) ->
      img ∈ images out /\
      (forall l0, opts ≫= opt_log = Some l0 -> exists l, log' = Some l /\ warning ∈ l)).
Proof.
  intros maxBytes idx Hc Hvalid Hdecl Hsniff Himgd Himgs Hne label warning img.
  assert (Hiter : forall log,
             parseMessageWithAttachments_iter detectMime maxBytes log idx (Some att)
             = (warn log warning, Ok (Some img))).
  { intros log. rewrite (parse_iter_valid _ _ _ _ _ _ Hc Hvalid).
    rewrite Hdecl, Hsniff, Himgs, Himgd.
    rewrite (normalizeMime_truthy _ _ Hdecl), (normalizeMime_truthy _ _ Hsniff).
    cbn [negb andb opt_eqb render].
    destruct (String.eqb_spec sniffed declared) as [->|_]; [done|]. reflexivity. }
  assert (Hloop : forall log rest imgs,
             parseMessageWithAttachments_loop detectMime maxBytes log idx
               (Some att :: rest) imgs
             = parseMessageWithAttachments_loop detectMime maxBytes (warn log warning)
                 (S idx) rest (imgs ++ [img])).
  { intros log rest imgs. cbn [parseMessageWithAttachments_loop]. by rewrite Hiter. }
  split; [done|]. split; [done|]. split; [|].
  - unfold warning. split; [|split].
    + apply includes_intro.
    + rewrite <- (append_assoc "attachment "), <- append_assoc. apply includes_intro.
    + rewrite <- (append_assoc "attachment "), <- (append_assoc _ ": mime mismatch ("),
        <- (append_assoc _ declared), <- (append_assoc _ " -> ").
      apply includes_intro.
  - intros msg log' out. rewrite parseMessageWithAttachments_some.
    fold maxBytes. rewrite parseMessageWithAttachments_loop_app.
    pose proof (parse_loop_extends detectMime maxBytes (opts ≫= opt_log) 0 pre []) as Hpre.
    destruct (parseMessageWithAttachments_loop detectMime maxBytes _ 0 pre [])
      as [log1 [imgs1|e]]; [|discriminate].
    cbn [fst] in Hpre. change (0 + length pre) with idx. rewrite Hloop.
    pose proof (parse_loop_extends detectMime maxBytes (warn log1 warning) (S idx) post
                  (imgs1 ++ [img])) as Hpost.
    destruct (parseMessageWithAttachments_loop detectMime maxBytes _ (S idx) post _)
      as [log2 [imgs2|e]] eqn:Hrun; [|discriminate].
    cbn [fst] in Hpost. intros [= <- <-]. cbn [images]. split.
    + apply parse_loop_images in Hrun as ->.
      rewrite !elem_of_app, list_elem_of_singleton. auto.
    + intros l0 Hl0. rewrite Hl0 in Hpre. destruct Hpre as [m1 ->].
      destruct Hpost as [m2 ->]. eexists. split; [reflexivity|].
      rewrite !elem_of_app, list_elem_of_singleton. auto.
Qed.

Lemma C5_mismatch_sniff_wins_witness :
  let mislabeled := {| att_type := None; att_mimeType := Some "image/png";
                       att_fileName := Some "shot.png"; att_content := UString jpeg_b64 |} in
  let voice := attachment (Some "audio/ogg") "voice.ogg" (UString ogg_b64) in
  parseMessageWithAttachments magicDetect "hi" (Some [voice; Some mislabeled])
    (Some {| opt_maxBytes := Some 1000%Z; opt_log := Some [] |})
  = (Some ["attachment shot.png: mime mismatch (image/png -> image/jpeg), using sniffed"],
     Ok {| message := "hi";
           images := [{| img_type := "image"; img_data := jpeg_b64;
                         img_mimeType := "image/jpeg" |}] |}).
Proof.
  intros mislabeled voice.
  assert (Hvalid : valid_content jpeg_b64 1000).
  { split; [reflexivity|]. vm_compute. split; discriminate. }
  assert (Hne : "image/png" <> "image/jpeg") by discriminate.
  pose proof (C5_mismatch_sniff_wins magicDetect
                (Some {| opt_maxBytes := Some 1000%Z; opt_log := Some [] |})
                [voice] [] mislabeled jpeg_b64 "image/png" "image/jpeg"
                eq_refl Hvalid eq_refl eq_refl eq_refl eq_refl Hne) as (_ & Hloop & _ & _).
  rewrite parseMessageWithAttachments_some.
  change (default 5000000%Z _) with 1000%Z.
  change [voice; Some mislabeled] with ([voice] ++ [Some mislabeled]).
  rewrite parseMessageWithAttachments_loop_app.
  change (parseMessageWithAttachments_loop magicDetect 1000 _ 0 [voice] [])
    with (Some (@nil string), @Ok (list ChatImageContent) []).
  cbv beta iota. change (0 + length [voice]) with (length [voice]).
  cbv zeta in Hloop. rewrite Hloop. reflexivity.
Defined.

(** ** C6: the size boundary *)

(** C6, as stated, fails on the strict path for an attachment that is not
    an audio candidate: a JPEG declared as an image and decoding to 6 bytes
    under a ceiling of 5, or an untyped payload decoding to no byte at all,
    is never validated there, and the call returns none instead of failing
    with SizeExceeded. *)
Lemma C6_strict_path_validates_candidates_only :
  (decoded_size jpeg_b64 = 6 /\
   getFirstAudioAttachment magicDetect
     (Some [attachment (Some "image/jpeg") "photo.jpg" (UString jpeg_b64)]) 5 = Ok None) /\
  (decoded_size "====" = 0 /\
   getFirstAudioAttachment magicDetect
     (Some [attachment None "empty" (UString "====")]) 5 = Ok None).
Proof. repeat split; vm_compute; reflexivity. Qed.

(** C6 (amended). Let an attachment have string content with only legal
    characters once normalized, decoding to [size] bytes.  If [size] is zero
    or exceeds [maxBytes], the lenient iteration and the strict path's
    validator both throw SizeExceeded, whose message includes [size] and
    [maxBytes]; the lenient call fails with it when the earlier attachments
    pass, and so does the strict call when the attachment is an audio
    candidate (declared or sniffed audio) and no earlier attachment was
    selected or failed.  If [size] is exactly [maxBytes] (and not zero),
    validation passes on both paths: neither throws. *)
Theorem C6_size_boundary (detectMime : list byte -> option string) (maxBytes : Z)
    (idx : nat) (att : ChatAttachment) (content : string) :
  att_content att = UString content ->
  has_illegal_char (normalizeBase64ForDecode content) = false ->
  let size := decoded_size content in
  let natt := {| norm_type := att_type att; norm_mimeType := att_mimeType att;
                 norm_fileName := att_fileName att; norm_content := content |} in
  let err := ExceedsSizeLimit (label_of (att_fileName att) (att_type att) idx) size maxBytes in
  let candidate :=
    isAudioMime (normalizeMime (att_mimeType att))
    || isAudioMime (normalizeMime (sniffMimeFromBase64 detectMime content)) in
  (size = 0 \/ (maxBytes < Z.of_nat size)%Z ->
     (forall log,
         parseMessageWithAttachments_iter detectMime maxBytes log idx (Some att)
         = (log, Throw err)) /\
     (forall log pre post imgs0 log1 imgs1,
         idx = length pre ->
         parseMessageWithAttachments_loop detectMime maxBytes log 0 pre imgs0
         = (log1, Ok imgs1) ->
         parseMessageWithAttachments_loop detectMime maxBytes log 0
           (pre ++ Some att :: post) imgs0 = (log1, Throw err)) /\
     decodeAndValidateAudioAttachment detectMime natt idx maxBytes = Throw err /\
     (candidate = true ->
      getFirstAudioAttachment_iter detectMime maxBytes idx (Some att) = Throw err /\
      forall pre post,
        idx = length pre ->
        getFirstAudioAttachment_loop detectMime maxBytes 0 pre = Ok None ->
        getFirstAudioAttachment detectMime (Some (pre ++ Some att :: post)) maxBytes
        = Throw err) /\
     error_kind err = SizeExceeded /\
     includes (error_message err) (JS.string_of_nat size) /\
     includes (error_message err) (JS.string_of_Z maxBytes)) /\
  (0 < size -> Z.of_nat size = maxBytes ->
     (forall log, exists log' r,
         parseMessageWithAttachments_iter detectMime maxBytes log idx (Some att)
         = (log', Ok r)) /\
     (exists r, decodeAndValidateAudioAttachment detectMime natt idx maxBytes = Ok r) /\
     (exists r, getFirstAudioAttachment_iter detectMime maxBytes idx (Some att) = Ok r)).
Proof.
  intros Hc Hlegal size natt err candidate. split.
  - intros Hsize.
    assert (Hiter : forall log,
               parseMessageWithAttachments_iter detectMime maxBytes log idx (Some att)
               = (log, Throw err)).
    { intros log. unfold parseMessageWithAttachments_iter.
      rewrite Hc, Hlegal. fold (decoded_size content). fold size.
      by rewrite (size_refused _ _ Hsize). }
    assert (Hdec : decodeAndValidateAudioAttachment detectMime natt idx maxBytes = Throw err)
      by (by apply decode_size_rejected).
    assert (Hcand : candidate = true ->
               getFirstAudioAttachment_iter detectMime maxBytes idx (Some att) = Throw err).
    { intros Hcand. rewrite (audio_iter_string _ _ _ _ _ Hc). fold natt. rewrite Hdec.
      unfold candidate in Hcand. apply orb_true_iff in Hcand as [Ha|Hs].
      - by rewrite Ha.
      - destruct (isAudioMime (normalizeMime (att_mimeType att))); [done|]. by rewrite Hs. }
    split; [done|]. split; [|split; [done|split; [|split; [done|split]]]].
    + intros log pre post imgs0 log1 imgs1 -> Hpre.
      rewrite parseMessageWithAttachments_loop_app, Hpre.
      cbn [parseMessageWithAttachments_loop]. by rewrite Hiter.
    + intros Hcand'. split; [by apply Hcand|]. intros pre post -> Hpre.
      rewrite getFirstAudioAttachment_some, getFirstAudioAttachment_loop_app, Hpre.
      rewrite loop_cons. change (0 + length pre) with (length pre). by rewrite Hcand.
    + unfold err, error_message.
      rewrite <- (append_assoc "attachment "), <- append_assoc. apply includes_intro.
    + unfold err, error_message.
      rewrite <- (append_assoc "attachment "), <- (append_assoc _ ": exceeds size limit ("),
        <- (append_assoc _ (JS.string_of_nat size)), <- (append_assoc _ " > ").
      apply includes_intro.
  - intros Hpos Heq.
    assert (Hvalid : valid_content content maxBytes).
    { split; [done|]. fold size. lia. }
    assert (Hdec : exists r,
               decodeAndValidateAudioAttachment detectMime natt idx maxBytes = Ok r).
    { rewrite decode_valid by done. cbv zeta.
      match goal with |- context [if ?b then _ else _] => destruct b end; eauto. }
    split; [|split; [done|]].
    + intros log. rewrite (parse_iter_valid _ _ _ _ _ _ Hc Hvalid).
      repeat match goal with
             | |- context [if ?b then (_, _) else _] => destruct b
             end; eauto.
    + rewrite (audio_iter_string _ _ _ _ _ Hc). fold natt.
      destruct Hdec as [r ->].
      destruct (isAudioMime (normalizeMime (att_mimeType att))),
        (isAudioMime (normalizeMime (sniffMimeFromBase64 detectMime content)));
        destruct r; eauto.
Qed.

Lemma C6_size_boundary_witness :
  let photo := {| att_type := None; att_mimeType := Some "image/jpeg";
                  att_fileName := Some "photo.jpg"; att_content := UString jpeg_b64 |} in
  let voice := {| att_type := None; att_mimeType := Some "audio/ogg";
                  att_fileName := None; att_content := UString ogg_b64 |} in
  decoded_size jpeg_b64 = 6 /\
  (exists log' r,
      parseMessageWithAttachments_iter magicDetect 6 None 0 (Some photo) = (log', Ok r)) /\
  parseMessageWithAttachments_iter magicDetect 5 None 0 (Some photo)
  = (None, Throw (ExceedsSizeLimit "photo.jpg" 6 5)) /\
  getFirstAudioAttachment magicDetect (Some [Some photo; Some voice]) 5
  = Throw (ExceedsSizeLimit "attachment-2" 6 5) /\
  error_message (ExceedsSizeLimit "attachment-2" 6 5)
  = "attachment attachment-2: exceeds size limit (6 > 5 bytes)".
Proof.
  intros photo voice. split; [reflexivity|]. split; [|split; [|split]].
  - apply (proj2 (C6_size_boundary magicDetect 6 0 photo jpeg_b64 eq_refl eq_refl));
      [vm_compute; lia|reflexivity].
  - apply (proj1 (C6_size_boundary magicDetect 5 0 photo jpeg_b64 eq_refl eq_refl)).
    right. vm_compute. reflexivity.
  - assert (Hbig : decoded_size ogg_b64 = 0 \/ (5 < Z.of_nat (decoded_size ogg_b64))%Z)
      by (right; vm_compute; reflexivity).
    destruct (proj1 (C6_size_boundary magicDetect 5 1 voice ogg_b64 eq_refl eq_refl) Hbig)
      as (_ & _ & _ & Hcand & _).
    destruct (Hcand eq_refl) as [_ Hcall].
    apply (Hcall [Some photo] [] eq_refl). vm_compute. reflexivity.
  - reflexivity.
Defined.

(** ** C2: selection by sniffing *)

(** C2, as stated, fails in two ways.  With a declared type that is present
    and not audio: the bytes are valid, within the ceiling and sniff as
    audio, yet the strict path resolves the declared type, finds it is not
    audio, and returns none.  With no declared type: the prefix sniffs as
    audio, but the type detected on the whole buffer is not audio, and the
    strict path returns none as well. *)
Lemma C2_sniffed_audio_not_selected :
  (isAudioMime (normalizeMime (Some "application/octet-stream")) = false /\
   valid_content ogg_b64 5000000 /\
   isAudioMime (normalizeMime (sniffMimeFromBase64 magicDetect ogg_b64)) = true /\
   getFirstAudioAttachment magicDetect
     (Some [attachment (Some "application/octet-stream") "voice.bin" (UString ogg_b64)])
     5000000 = Ok None) /\
  (valid_content ogg_long_b64 5000000 /\
   isAudioMime (normalizeMime (sniffMimeFromBase64 containerDetect ogg_long_b64)) = true /\
   getFirstAudioAttachment containerDetect
     (Some [attachment None "clip" (UString ogg_long_b64)]) 5000000 = Ok None).
Proof.
  repeat split; try reflexivity; vm_compute; first [reflexivity | discriminate].
Qed.

(** A declared type that is present and not audio keeps the strict path
    from selecting the attachment, whatever its bytes sniff as. *)
Lemma declared_non_audio_not_selected (detectMime : list byte -> option string)
    (maxBytes : Z) (idx : nat) (att : ChatAttachment) (content declared : string) :
  att_content att = UString content ->
  valid_content content maxBytes ->
  normalizeMime (att_mimeType att) = Some declared ->
  isAudioMime (Some declared) = false ->
  getFirstAudioAttachment_iter detectMime maxBytes idx (Some att) = Ok None.
Proof.
  intros Hc Hvalid Hdecl Hnot. rewrite (audio_iter_string _ _ _ _ _ Hc).
  rewrite Hdecl, Hnot, decode_valid by done.
  cbn [norm_mimeType norm_content]. rewrite Hdecl, Hnot.
  by destruct (isAudioMime (normalizeMime (sniffMimeFromBase64 detectMime content))).
Qed.

(** C2 (amended). In the strict path, take an attachment whose declared
    type is absent (or normalizes to nothing), whose content is valid (legal
    base64 decoding to between 1 and [maxBytes] bytes), whose sniffed type is
    audio, and for which the type detected on the whole decoded buffer is
    absent or audio, no earlier attachment having been selected or having
    failed.  Then [getFirstAudioAttachment] returns its decoded buffer, with
    the detected type, or [audio/octet-stream] when none was detected. *)
Theorem C2_sniffed_audio_path (detectMime : list byte -> option string) (maxBytes : Z)
    (pre post : list (option ChatAttachment)) (att : ChatAttachment) (content : string) :
  att_content att = UString content ->
  normalizeMime (att_mimeType att) = None ->
  valid_content content maxBytes ->
  isAudioMime (normalizeMime (sniffMimeFromBase64 detectMime content)) = true ->
  getFirstAudioAttachment_loop detectMime maxBytes 0 pre = Ok None ->
  let buf := Buffer.from_base64 (normalizeBase64ForDecode content) in
  let detected := default "audio/octet-stream" (detectMime buf) in
  isAudioMime (Some detected) = true ->
  getFirstAudioAttachment detectMime (Some (pre ++ Some att :: post)) maxBytes
  = Ok (Some {| buffer := buf; mimeType := detected |}).
Proof.
  intros Hc Hnone Hvalid Hsniff Hpre buf detected Haudio.
  pose proof (audio_iter_string detectMime maxBytes (length pre) att content Hc) as Hit.
  cbv zeta in Hit. rewrite Hsniff, decode_valid in Hit by done.
  cbn [norm_mimeType norm_content] in Hit. fold buf in Hit.
  rewrite Hnone in Hit. fold detected in Hit.
  rewrite Haudio in Hit. cbn [isAudioMime] in Hit.
  rewrite getFirstAudioAttachment_some, getFirstAudioAttachment_loop_app, Hpre.
  change (0 + length pre) with (length pre). by rewrite loop_cons, Hit.
Qed.

Lemma C2_sniffed_audio_path_witness :
  getFirstAudioAttachment magicDetect
    (Some [attachment (Some "image/jpeg") "photo.jpg" (UString jpeg_b64);
           attachment None "voice" (UString ogg_b64)]) 5000000
  = Ok (Some {| buffer := Buffer.from_base64 ogg_b64; mimeType := "audio/ogg" |}).
Proof.
  assert (Hvalid : valid_content ogg_b64 5000000).
  { split; [reflexivity|]. vm_compute. split; discriminate. }
  assert (Hpre : getFirstAudioAttachment_loop magicDetect 5000000 0
                   [attachment (Some "image/jpeg") "photo.jpg" (UString jpeg_b64)] = Ok None)
    by (vm_compute; reflexivity).
  exact (C2_sniffed_audio_path magicDetect 5000000
           [attachment (Some "image/jpeg") "photo.jpg" (UString jpeg_b64)] []
           {| att_type := None; att_mimeType := None; att_fileName := Some "voice";
              att_content := UString ogg_b64 |} ogg_b64
           eq_refl eq_refl Hvalid eq_refl Hpre eq_refl).
Defined.

(** ** C3: the legacy encoder does not normalize *)

(** C3, as stated, fails: a URL-safe, unpadded JPEG is accepted by the
    lenient path and rejected by the legacy path as invalid base64. *)
Lemma C3_legacy_rejects_url_safe :
  let photo := attachment (Some "image/jpeg") "photo.jpg" (UString "_9j_4A") in
  parseMessageWithAttachments magicDetect "" (Some [photo]) None
  = (None, Ok {| message := "";
                 images := [{| img_type := "image"; img_data := "/9j/4A==";
                               img_mimeType := "image/jpeg" |}] |}) /\
  buildMessageWithAttachments "" (Some [photo]) None
  = Throw (InvalidBase64Content "photo.jpg") /\
  buildMessageWithAttachments ""
    (Some [attachment (Some "image/jpeg") "photo.jpg" (UString "_9j_4AAQ")]) None
  = Throw (InvalidBase64Content "photo.jpg") /\
  buildMessageWithAttachments ""
    (Some [attachment (Some "image/jpeg") "photo.jpg"
             (UString "data:image/jpeg;base64,/9j/4AAQ")]) None
  = Throw (InvalidBase64Content "photo.jpg").
Proof. repeat split; vm_compute; reflexivity. Qed.

(** C3 (amended). The legacy encoder does not normalize the content; it
    only trims surrounding whitespace.  For an attachment declared as an
    image, it throws InvalidEncoding whenever the trimmed text is not a
    multiple of four long or holds a character outside the base64 alphabet
    (so data-URL, URL-safe and unpadded contents are rejected).  Otherwise
    the trimmed text is what the normalizer yields, and the size check is
    the one of the other paths; the ceiling is 2,000,000 bytes unless
    overridden. *)
Theorem C3_legacy_validation (maxBytes : Z) (idx : nat) (att : ChatAttachment)
    (content : string) :
  att_content att = UString content ->
  JS.startsWith (default "" (att_mimeType att)) "image/" = true ->
  let b64 := JS.trim content in
  let label := label_of (att_fileName att) (att_type att) idx in
  (String.length b64 mod 4 <> 0 \/ has_illegal_char b64 = true ->
   buildMessageWithAttachments_iter maxBytes idx (Some att)
   = Throw (InvalidBase64Content label)) /\
  (String.length b64 mod 4 = 0 -> has_illegal_char b64 = false ->
   normalizeBase64ForDecode content = b64 /\
   buildMessageWithAttachments_iter maxBytes idx (Some att)
   = if size_rejected (decoded_size content) maxBytes
     then Throw (ExceedsSizeLimit label (decoded_size content) maxBytes)
     else Ok (Some ("![" +:+ JS.replace_ws_runs false label +:+ "](data:"
                      +:+ default "" (att_mimeType att) +:+ ";base64," +:+ content +:+ ")"))) /\
  (forall msg attachments,
      buildMessageWithAttachments msg attachments None
      = buildMessageWithAttachments msg attachments
          (Some {| build_maxBytes := Some 2000000%Z |})).
Proof.
  intros Hc Himg b64 label. split; [|split].
  - intros Hbad. unfold buildMessageWithAttachments_iter.
    rewrite Hc, Himg. cbn [negb]. fold b64.
    replace (negb (Nat.eqb (String.length b64 mod 4) 0) || has_illegal_char b64) with true;
      [done|].
    symmetry. apply orb_true_iff. destruct Hbad as [Hlen|Hill]; [left|by right].
    apply negb_true_iff, Nat.eqb_neq, Hlen.
  - intros Hlen Hlegal.
    assert (Hnorm : normalizeBase64ForDecode content = b64)
      by (by apply normalize_legal_trimmed).
    split; [done|]. unfold buildMessageWithAttachments_iter, decoded_size.
    rewrite Hc, Himg, Hnorm. cbn [negb]. fold b64. rewrite Hlen, Hlegal. reflexivity.
  - reflexivity.
Qed.

Lemma C3_legacy_validation_witness :
  let photo := {| att_type := None; att_mimeType := Some "image/jpeg";
                  att_fileName := Some "my photo.jpg";
                  att_content := UString " /9j/4AAQ " |} in
  let unpadded := {| att_type := None; att_mimeType := Some "image/jpeg";
                     att_fileName := Some "photo.jpg"; att_content := UString "/9j/4A" |} in
  buildMessageWithAttachments_iter 2000000 0 (Some photo)
  = Ok (Some "![my_photo.jpg](data:image/jpeg;base64, /9j/4AAQ )") /\
  buildMessageWithAttachments_iter 2000000 0 (Some unpadded)
  = Throw (InvalidBase64Content "photo.jpg").
Proof.
  intros photo unpadded. split.
  - destruct (C3_legacy_validation 2000000 0 photo " /9j/4AAQ " eq_refl eq_refl)
      as (_ & Hok & _).
    destruct (Hok eq_refl eq_refl) as [_ ->]. reflexivity.
  - destruct (C3_legacy_validation 2000000 0 unpadded "/9j/4A" eq_refl eq_refl)
      as (Hbad & _).
    apply Hbad. left. vm_compute. discriminate.
Defined.

(** ** C10: the shape of the strict path's result *)

Lemma lower_char_idempotent c : JS.lower_char (JS.lower_char c) = JS.lower_char c.
Proof. destruct c as [[] [] [] [] [] [] [] []]; vm_compute; reflexivity. Qed.

Lemma toLowerCase_idempotent s : JS.toLowerCase (JS.toLowerCase s) = JS.toLowerCase s.
Proof. induction s as [|c r IH]; simpl; [done|]. by rewrite lower_char_idempotent, IH. Qed.

Lemma lower_char_semicolon c : Ascii.eqb ";" (JS.lower_char c) = Ascii.eqb ";" c.
Proof. destruct c as [[] [] [] [] [] [] [] []]; vm_compute; reflexivity. Qed.

Lemma toLowerCase_parameter_free s : parameter_free s -> parameter_free (JS.toLowerCase s).
Proof.
  unfold parameter_free. induction s as [|c r IH]; [done|].
  cbn [JS.existsb JS.toLowerCase].
  rewrite lower_char_semicolon. intros [-> Hr]%orb_false_iff. by apply IH.
Qed.

Lemma trimStart_existsb p s : JS.existsb p s = false -> JS.existsb p (JS.trimStart s) = false.
Proof.
  induction s as [|c r IH]; simpl; [done|].
  intros [Hc Hr]%orb_false_iff. destruct (JS.is_whitespace c); [by apply IH|].
  simpl. by rewrite Hc, Hr.
Qed.

Lemma trimEnd_existsb p s : JS.existsb p s = false -> JS.existsb p (JS.trimEnd s) = false.
Proof.
  induction s as [|c r IH]; simpl; [done|].
  intros [Hc Hr]%orb_false_iff. specialize (IH Hr).
  destruct (JS.trimEnd r) as [|c' r'].
  - destruct (JS.is_whitespace c); simpl; [done|]. by rewrite Hc.
  - change (JS.existsb p (String c (String c' r')))
      with (p c || JS.existsb p (String c' r')). by rewrite Hc, IH.
Qed.

Lemma split_head_parameter_free s : parameter_free (JS.split_head ";" s).
Proof. apply split_head_no_sep. Qed.

(** What [normalizeMime] returns is lowercase and without parameters. *)
Lemma normalizeMime_shape o m :
  normalizeMime o = Some m -> is_lowercase m /\ parameter_free m.
Proof.
  unfold normalizeMime. destruct o as [s|]; [|discriminate].
  destruct (String.eqb s ""); [discriminate|].
  destruct (String.eqb (JS.toLowerCase _) ""); [discriminate|].
  intros [= <-]. split.
  - apply toLowerCase_idempotent.
  - apply toLowerCase_parameter_free, trimEnd_existsb, trimStart_existsb,
      split_head_parameter_free.
Qed.

Lemma size_rejected_false size maxBytes :
  size_rejected size maxBytes = false -> (1 <= Z.of_nat size <= maxBytes)%Z.
Proof. unfold size_rejected. intros [H1 H2]%orb_false_iff. lia. Qed.

Section ResultShape.

Variable detectMime : list byte -> option string.
Variable maxBytes : Z.

(** What the strict path's validator returns, when it returns a result. *)
Lemma decode_result_shape natt idx r :
  decodeAndValidateAudioAttachment detectMime natt idx maxBytes = Ok (Some r) ->
  (1 <= Z.of_nat (length (buffer r)) <= maxBytes)%Z /\
  JS.startsWith (mimeType r) "audio/" = true /\
  (mimeType r = "audio/octet-stream"
   \/ normalizeMime (norm_mimeType natt) = Some (mimeType r)
   \/ normalizeMime (norm_mimeType natt) = None
      /\ detectMime (buffer r) = Some (mimeType r)).
Proof.
  unfold decodeAndValidateAudioAttachment.
  destruct (has_illegal_char _); [discriminate|].
  destruct (size_rejected _ _) eqn:Hsize; [discriminate|].
  apply size_rejected_false in Hsize.
  destruct (normalizeMime (norm_mimeType natt)) as [m|] eqn:Hm.
  - destruct (isAudioMime (Some m)) eqn:Ha; [|discriminate].
    intros [= <-]. cbn [buffer mimeType negb].
    split; [exact Hsize|]. split; [exact Ha|]. right. by left.
  - destruct (detectMime _) as [m|] eqn:Hd.
    + destruct (isAudioMime (Some m)) eqn:Ha; [|discriminate].
      intros [= <-]. cbn [buffer mimeType].
      split; [exact Hsize|]. split; [exact Ha|]. right. right. by split.
    + intros [= <-]. cbn [buffer mimeType].
      split; [exact Hsize|]. split; [reflexivity|]. by left.
Qed.

(** A result of an iteration of the strict loop comes from the validator. *)
Lemma audio_iter_result idx entry r :
  getFirstAudioAttachment_iter detectMime maxBytes idx entry = Ok (Some r) ->
  exists natt, decodeAndValidateAudioAttachment detectMime natt idx maxBytes = Ok (Some r).
Proof.
  destruct entry as [att|]; [|discriminate].
  destruct (att_content att) as [|content|] eqn:Hc;
    try (unfold getFirstAudioAttachment_iter; rewrite Hc; discriminate).
  rewrite (audio_iter_string _ _ _ _ _ Hc).
  set (natt := {| norm_type := att_type att; norm_mimeType := att_mimeType att;
                  norm_fileName := att_fileName att; norm_content := content |}).
  destruct (decodeAndValidateAudioAttachment detectMime natt idx maxBytes)
    as [[r'|]|e] eqn:Hdec;
    destruct (isAudioMime (normalizeMime (att_mimeType att))),
      (isAudioMime (normalizeMime (sniffMimeFromBase64 detectMime content)));
    try discriminate; intros [= <-]; by exists natt.
Qed.

(** The part of C10 that holds for every detector: the buffer length lies in
    [1, maxBytes] and the type begins with [audio/]; the type is lowercase
    and without parameters as soon as the detector's own types are. *)
Lemma first_audio_result_shape attachments r :
  getFirstAudioAttachment detectMime attachments maxBytes = Ok (Some r) ->
  (1 <= Z.of_nat (length (buffer r)) <= maxBytes)%Z /\
  JS.startsWith (mimeType r) "audio/" = true /\
  ((forall buf m, detectMime buf = Some m -> is_lowercase m /\ parameter_free m) ->
   is_lowercase (mimeType r) /\ parameter_free (mimeType r)).
Proof.
  destruct attachments as [entries|]; [|discriminate].
  rewrite getFirstAudioAttachment_some.
  intros (i & entry & _ & Hit & _)%loop_some.
  apply audio_iter_result in Hit as [natt Hdec].
  apply decode_result_shape in Hdec as (Hlen & Haudio & Hfrom).
  split; [done|]. split; [done|]. intros Hdet.
  destruct Hfrom as [->|[Hdecl|[_ Hd]]].
  - by split.
  - by apply normalizeMime_shape in Hdecl.
  - by apply Hdet in Hd.
Qed.

End ResultShape.

(** C10 at its failing input: an Ogg payload without declared type, under a
    detector that reports the codec as a parameter.  The strict path returns
    the detector's text as it is, parameter included. *)
Theorem C10_detected_type_keeps_parameter :
  let voice := {| att_type := None; att_mimeType := None;
                  att_fileName := Some "voice.ogg"; att_content := UString ogg_b64 |} in
  normalizeMime (sniffMimeFromBase64 codecDetect ogg_b64) = Some "audio/ogg" /\
  getFirstAudioAttachment codecDetect (Some [Some voice]) 5000000
  = Ok (Some {| buffer := [x4f; x67; x67; x53; x00; x02];
                mimeType := "audio/ogg; codecs=opus" |}) /\
  ~ parameter_free "audio/ogg; codecs=opus".
Proof. repeat split; try (vm_compute; reflexivity). vm_compute. discriminate. Qed.

(** * Further properties of the attachment pipeline *)

(** ** Strings: trimming and character maps *)

Lemma map_chars_length f s : String.length (map_chars f s) = String.length s.
Proof. induction s as [|c r IH]; simpl; [done|]. by rewrite IH. Qed.

Lemma map_chars_empty f s : map_chars f s = "" <-> s = "".
Proof. by destruct s. Qed.

Lemma map_chars_compose f g s : map_chars g (map_chars f s) = map_chars (fun c => g (f c)) s.
Proof. induction s as [|c r IH]; simpl; [done|]. by rewrite IH. Qed.

Lemma map_chars_ext f g s : (forall c, f c = g c) -> map_chars f s = map_chars g s.
Proof. intros H. induction s as [|c r IH]; simpl; [done|]. by rewrite H, IH. Qed.

Lemma replace_char_map a b s :
  JS.replace_char a b s = map_chars (fun c => if Ascii.eqb c a then b else c) s.
Proof. induction s as [|c r IH]; simpl; [done|]. by rewrite IH. Qed.

Lemma toLowerCase_map s : JS.toLowerCase s = map_chars JS.lower_char s.
Proof. induction s as [|c r IH]; simpl; [done|]. by rewrite IH. Qed.

Section MapTrim.

(** A character map that keeps whitespace whitespace and the rest the
    rest. *)
Variable f : ascii -> ascii.
Hypothesis f_whitespace : forall c, JS.is_whitespace (f c) = JS.is_whitespace c.

Lemma trimStart_map s : JS.trimStart (map_chars f s) = map_chars f (JS.trimStart s).
Proof.
  induction s as [|c r IH]; [done|]. cbn [map_chars JS.trimStart].
  rewrite f_whitespace. by destruct (JS.is_whitespace c).
Qed.

Lemma trimEnd_map s : JS.trimEnd (map_chars f s) = map_chars f (JS.trimEnd s).
Proof.
  induction s as [|c r IH]; [done|]. cbn [map_chars JS.trimEnd].
  rewrite IH, f_whitespace. destruct (JS.trimEnd r) as [|c' r']; cbn [map_chars]; [|done].
  by destruct (JS.is_whitespace c).
Qed.

Lemma trim_map s : JS.trim (map_chars f s) = map_chars f (JS.trim s).
Proof. unfold JS.trim. by rewrite trimStart_map, trimEnd_map. Qed.

End MapTrim.

Lemma trimEnd_idempotent s : JS.trimEnd (JS.trimEnd s) = JS.trimEnd s.
Proof.
  induction s as [|c r IH]; [done|]. cbn [JS.trimEnd].
  destruct (JS.trimEnd r) as [|c' r'] eqn:Hr.
  - destruct (JS.is_whitespace c) eqn:Hc; [done|]. cbn [JS.trimEnd]. by rewrite Hc.
  - cbn [JS.trimEnd]. cbn [JS.trimEnd] in IH. by rewrite IH.
Qed.

(** Trimming the end keeps a first character that is not whitespace. *)
Lemma trimStart_trimEnd s :
  JS.trimStart s = s -> JS.trimStart (JS.trimEnd s) = JS.trimEnd s.
Proof.
  destruct s as [|c r]; [done|]. cbn [JS.trimStart].
  destruct (JS.is_whitespace c) eqn:Hc.
  - intros H. exfalso. assert (Hlen : String.length (JS.trimStart r) <= String.length r).
    { clear. induction r as [|c r IH]; simpl; [lia|]. destruct (JS.is_whitespace c); simpl; lia. }
    rewrite H in Hlen. simpl in Hlen. lia.
  - intros _. cbn [JS.trimEnd].
    destruct (JS.trimEnd r); rewrite ?Hc; cbn [JS.trimStart]; by rewrite Hc.
Qed.

Lemma trimStart_idempotent s : JS.trimStart (JS.trimStart s) = JS.trimStart s.
Proof.
  induction s as [|c r IH]; [done|]. cbn [JS.trimStart].
  destruct (JS.is_whitespace c) eqn:Hc; [done|]. cbn [JS.trimStart]. by rewrite Hc.
Qed.

Lemma trim_idempotent s : JS.trim (JS.trim s) = JS.trim s.
Proof.
  unfold JS.trim. rewrite (trimStart_trimEnd (JS.trimStart s)) by apply trimStart_idempotent.
  apply trimEnd_idempotent.
Qed.

Lemma lower_char_whitespace c : JS.is_whitespace (JS.lower_char c) = JS.is_whitespace c.
Proof. destruct c as [[] [] [] [] [] [] [] []]; vm_compute; reflexivity. Qed.

Lemma split_head_id sep s : JS.existsb (Ascii.eqb sep) s = false -> JS.split_head sep s = s.
Proof.
  induction s as [|c r IH]; [done|]. cbn [JS.existsb JS.split_head].
  intros [Hc Hr]%orb_false_iff. rewrite Ascii.eqb_sym, Hc. by rewrite IH.
Qed.

(** ** X1: [normalizeMime] *)

(** X1. [normalizeMime] is idempotent, and a type it returns is never
    empty, is lowercase, carries no parameter and no surrounding
    whitespace. *)
Theorem X1_normalizeMime_idempotent (mime : option string) :
  normalizeMime (normalizeMime mime) = normalizeMime mime /\
  (forall m, normalizeMime mime = Some m ->
     m <> "" /\ is_lowercase m /\ parameter_free m /\ JS.trim m = m).
Proof.
  assert (Hshape : forall m, normalizeMime mime = Some m ->
             m <> "" /\ is_lowercase m /\ parameter_free m /\ JS.trim m = m).
  { intros m Hm. destruct (normalizeMime_shape _ _ Hm) as [Hlow Hfree].
    pose proof (normalizeMime_truthy _ _ Hm) as Ht.
    split; [|split; [done|split; [done|]]].
    - intros ->. discriminate.
    - revert Hm. unfold normalizeMime. destruct mime as [s|]; [|discriminate].
      destruct (String.eqb s ""); [discriminate|].
      destruct (String.eqb (JS.toLowerCase _) ""); [discriminate|].
      intros [= <-]. rewrite toLowerCase_map, trim_map by apply lower_char_whitespace.
      by rewrite trim_idempotent. }
  split; [|done].
  destruct (normalizeMime mime) as [m|] eqn:Hm; [|done].
  destruct (Hshape m eq_refl) as (Hne & Hlow & Hfree & Htrim).
  unfold normalizeMime. destruct (String.eqb_spec m "") as [|_]; [done|].
  rewrite (split_head_id ";" m Hfree), Htrim, Hlow.
  by destruct (String.eqb_spec m "").
Qed.

(** ** X2: [stripDataUrlPrefix] *)

Lemma data_url_media_unique m1 r1 m2 r2 :
  JS.existsb (Ascii.eqb ";") m1 = false ->
  JS.existsb (Ascii.eqb ";") m2 = false ->
  m1 +:+ ";base64," +:+ r1 = m2 +:+ ";base64," +:+ r2 ->
  m1 = m2 /\ r1 = r2.
Proof.
  intros H1 H2 Heq.
  change (";base64," +:+ r1) with (String ";" ("base64," +:+ r1)) in Heq.
  change (";base64," +:+ r2) with (String ";" ("base64," +:+ r2)) in Heq.
  destruct (split_head_app ";" m1 ("base64," +:+ r1) H1) as [Hh1 Ha1].
  destruct (split_head_app ";" m2 ("base64," +:+ r2) H2) as [Hh2 Ha2].
  rewrite Heq in Hh1, Ha1. rewrite Hh2 in Hh1. rewrite Ha2 in Ha1.
  split; [done|]. injection Ha1 as Ha1. symmetry. exact Ha1.
Qed.

(** X2. When the trimmed content reads [data:<media>;base64,<rest>], with a
    non-empty [media] that holds no semicolon, [stripDataUrlPrefix] returns
    [rest]; unless [rest] holds a line break, in which case the prefix is
    not removed and the whole trimmed content is returned. *)
Theorem X2_stripDataUrlPrefix (content media rest : string) :
  JS.trim content = "data:" +:+ media +:+ ";base64," +:+ rest ->
  media <> "" ->
  JS.existsb (Ascii.eqb ";") media = false ->
  stripDataUrlPrefix content =
  if JS.existsb JS.is_line_terminator rest then JS.trim content else rest.
Proof.
  intros Htrim Hne Hfree. unfold stripDataUrlPrefix.
  destruct (JS.existsb JS.is_line_terminator rest) eqn:Hlt.
  - destruct (exec_data_url (JS.trim content)) as [r|] eqn:He; [|done].
    apply exec_data_url_spec in He as (m' & Heq & _ & Hfree' & Hlt').
    rewrite Htrim in Heq. apply (inj (String.append "data:")) in Heq.
    destruct (data_url_media_unique _ _ _ _ Hfree Hfree' Heq) as [_ <-]. congruence.
  - rewrite (proj2 (exec_data_url_spec (JS.trim content) rest)); [done|].
    by exists media.
Qed.

Lemma X2_stripDataUrlPrefix_witness :
  stripDataUrlPrefix "  data:image/png;base64,iVBORw0K " = "iVBORw0K" /\
  stripDataUrlPrefix ("data:image/png;base64,iVBO" +:+ String "010" "Rw0K")
  = "data:image/png;base64,iVBO" +:+ String "010" "Rw0K".
Proof.
  split.
  - exact (X2_stripDataUrlPrefix "  data:image/png;base64,iVBORw0K " "image/png" "iVBORw0K"
             eq_refl ltac:(discriminate) eq_refl).
  - exact (X2_stripDataUrlPrefix ("data:image/png;base64,iVBO" +:+ String "010" "Rw0K")
             "image/png" ("iVBO" +:+ String "010" "Rw0K") eq_refl ltac:(discriminate) eq_refl).
Defined.

(** Without the literal [data:] in front, nothing is removed but the
    surrounding whitespace. *)
Lemma stripDataUrlPrefix_plain content :
  strip_prefix "data:" (JS.trim content) = None ->
  stripDataUrlPrefix content = JS.trim content.
Proof. intros H. unfold stripDataUrlPrefix, exec_data_url. by rewrite H. Qed.

(** ** X3: the URL-safe alphabet *)

Section UrlSafe.

Let fu (c : ascii) : ascii :=
  let c1 := if Ascii.eqb c "+" then "-"%char else c in
  if Ascii.eqb c1 "/" then "_"%char else c1.

Let fg (c : ascii) : ascii :=
  let c1 := if Ascii.eqb c "-" then "+"%char else c in
  if Ascii.eqb c1 "_" then "/"%char else c1.

Lemma to_url_safe_map s : to_url_safe s = map_chars fu s.
Proof. unfold to_url_safe. by rewrite !replace_char_map, map_chars_compose. Qed.

Lemma fu_whitespace c : JS.is_whitespace (fu c) = JS.is_whitespace c.
Proof. destruct c as [[] [] [] [] [] [] [] []]; vm_compute; reflexivity. Qed.

Lemma fu_line_terminator c : JS.is_line_terminator (fu c) = JS.is_line_terminator c.
Proof. destruct c as [[] [] [] [] [] [] [] []]; vm_compute; reflexivity. Qed.

Lemma fg_fu c : fg (fu c) = fg c.
Proof. destruct c as [[] [] [] [] [] [] [] []]; vm_compute; reflexivity. Qed.

(** The characters the URL-safe spelling neither changes nor produces. *)
Let fixed (a : ascii) : bool :=
  negb (Ascii.eqb a "+") && negb (Ascii.eqb a "/")
  && negb (Ascii.eqb a "-") && negb (Ascii.eqb a "_").

Lemma fu_fixed a c : fixed a = true -> Ascii.eqb a (fu c) = Ascii.eqb a c.
Proof.
  unfold fixed, fu. rewrite !andb_true_iff, !negb_true_iff.
  intros [[[Hp Hs] Hd] Hu].
  destruct (Ascii.eqb_spec c "+") as [->|]; cbn zeta.
  - change (Ascii.eqb "-" "/") with false. cbn iota. by rewrite Hp, Hd.
  - destruct (Ascii.eqb_spec c "/") as [->|]; [by rewrite Hs, Hu|done].
Qed.

Lemma strip_prefix_map p s :
  JS.existsb (fun a => negb (fixed a)) p = false ->
  strip_prefix p (map_chars fu s) = map_chars fu <$> strip_prefix p s.
Proof.
  revert s. induction p as [|a p IH]; intros s; [done|].
  cbn [JS.existsb]. intros [Ha Hp]%orb_false_iff. apply negb_false_iff in Ha.
  destruct s as [|c s]; [done|]. cbn [strip_prefix map_chars].
  rewrite (fu_fixed a c Ha). destruct (Ascii.eqb a c); [by apply IH|done].
Qed.

Lemma split_head_map s :
  JS.split_head ";" (map_chars fu s) = map_chars fu (JS.split_head ";" s).
Proof.
  induction s as [|c r IH]; [done|]. cbn [JS.split_head map_chars].
  rewrite (Ascii.eqb_sym (fu c)), (fu_fixed ";" c eq_refl), (Ascii.eqb_sym ";").
  destruct (Ascii.eqb c ";"); [done|]. cbn [map_chars]. by rewrite IH.
Qed.

Lemma after_head_map s :
  after_head ";" (map_chars fu s) = map_chars fu (after_head ";" s).
Proof.
  induction s as [|c r IH]; [done|]. cbn [after_head map_chars].
  rewrite (Ascii.eqb_sym (fu c)), (fu_fixed ";" c eq_refl), (Ascii.eqb_sym ";").
  by destruct (Ascii.eqb c ";").
Qed.

Lemma existsb_line_terminator_map s :
  JS.existsb JS.is_line_terminator (map_chars fu s) = JS.existsb JS.is_line_terminator s.
Proof.
  induction s as [|c r IH]; [done|]. cbn [JS.existsb map_chars].
  by rewrite fu_line_terminator, IH.
Qed.

Lemma eqb_empty_map s : String.eqb (map_chars fu s) "" = String.eqb s "".
Proof. by destruct s. Qed.

Lemma exec_data_url_map s :
  exec_data_url (map_chars fu s) = map_chars fu <$> exec_data_url s.
Proof.
  unfold exec_data_url. rewrite strip_prefix_map by reflexivity.
  destruct (strip_prefix "data:" s) as [t|]; [|done]. cbn [fmap option_fmap option_map].
  rewrite split_head_map, eqb_empty_map.
  destruct (String.eqb (JS.split_head ";" t) ""); [done|].
  rewrite after_head_map, strip_prefix_map by reflexivity.
  destruct (strip_prefix ";base64," (after_head ";" t)) as [rest|]; [|done].
  cbn [fmap option_fmap option_map]. rewrite existsb_line_terminator_map.
  by destruct (JS.existsb JS.is_line_terminator rest).
Qed.

Lemma replace_map_url_safe t :
  JS.replace_char "_" "/" (JS.replace_char "-" "+" (map_chars fu t))
  = JS.replace_char "_" "/" (JS.replace_char "-" "+" t).
Proof.
  rewrite !replace_char_map, !map_chars_compose.
  apply map_chars_ext. intros c. exact (fg_fu c).
Qed.

Lemma normalize_url_safe s :
  normalizeBase64ForDecode (to_url_safe s) = normalizeBase64ForDecode s.
Proof.
  unfold normalizeBase64ForDecode, stripDataUrlPrefix.
  rewrite to_url_safe_map, (trim_map fu fu_whitespace), exec_data_url_map.
  assert (Hstrip : JS.trim
                     match map_chars fu <$> exec_data_url (JS.trim s) with
                     | Some m1 => m1
                     | None => map_chars fu (JS.trim s)
                     end
                   = map_chars fu (JS.trim match exec_data_url (JS.trim s) with
                                           | Some m1 => m1
                                           | None => JS.trim s
                                           end)).
  { destruct (exec_data_url (JS.trim s)); cbn [fmap option_fmap option_map];
      by rewrite (trim_map fu fu_whitespace). }
  by rewrite Hstrip, replace_map_url_safe.
Qed.

End UrlSafe.

(** X3. The URL-safe spelling of a content (every [+] written [-], every
    [/] written [_]) normalizes to the same text as the content itself, so
    the lenient path and the strict path treat the two spellings of an
    attachment alike. *)
Theorem X3_url_safe_alphabet (detectMime : list byte -> option string) (maxBytes : Z)
    (content : string) :
  normalizeBase64ForDecode (to_url_safe content) = normalizeBase64ForDecode content /\
  (forall type mime name log idx,
      parseMessageWithAttachments_iter detectMime maxBytes log idx
        (Some {| att_type := type; att_mimeType := mime; att_fileName := name;
                 att_content := UString (to_url_safe content) |})
      = parseMessageWithAttachments_iter detectMime maxBytes log idx
          (Some {| att_type := type; att_mimeType := mime; att_fileName := name;
                   att_content := UString content |})) /\
  (forall type mime name idx,
      getFirstAudioAttachment_iter detectMime maxBytes idx
        (Some {| att_type := type; att_mimeType := mime; att_fileName := name;
                 att_content := UString (to_url_safe content) |})
      = getFirstAudioAttachment_iter detectMime maxBytes idx
          (Some {| att_type := type; att_mimeType := mime; att_fileName := name;
                   att_content := UString content |})).
Proof.
  pose proof (normalize_url_safe content) as Hn. split; [done|]. split.
  - intros. unfold parseMessageWithAttachments_iter.
    cbn [att_content att_mimeType att_fileName att_type]. by rewrite Hn.
  - intros. unfold getFirstAudioAttachment_iter, decodeAndValidateAudioAttachment,
      sniffMimeFromBase64.
    cbn [att_content att_mimeType att_fileName att_type
         norm_content norm_mimeType norm_fileName norm_type]. by rewrite Hn.
Qed.

(** ** X4: what the normalizer returns *)

Lemma append_length (a b : string) :
  String.length (a +:+ b) = String.length a + String.length b.
Proof. induction a as [|c a IH]; [done|]. rewrite append_cons. simpl. by rewrite IH. Qed.

Lemma repeat_length c n : String.length (JS.repeat c n) = n.
Proof. induction n as [|n IH]; simpl; [done|]. by rewrite IH. Qed.

Lemma existsb_append p (a b : string) :
  JS.existsb p (a +:+ b) = JS.existsb p a || JS.existsb p b.
Proof.
  induction a as [|c a IH]; [done|]. rewrite append_cons. cbn [JS.existsb].
  by rewrite IH, orb_assoc.
Qed.

Lemma existsb_repeat p c n : p c = false -> JS.existsb p (JS.repeat c n) = false.
Proof. intros H. induction n as [|n IH]; simpl; [done|]. by rewrite H, IH. Qed.

Lemma replace_char_removes a b s :
  Ascii.eqb b a = false -> JS.existsb (fun c => Ascii.eqb c a) (JS.replace_char a b s) = false.
Proof.
  intros Hab. induction s as [|c r IH]; [done|]. cbn [JS.replace_char JS.existsb].
  rewrite IH, orb_false_r. destruct (Ascii.eqb c a) eqn:E; [done|exact E].
Qed.

Lemma replace_char_keeps_absent p a b s :
  p b = false -> JS.existsb p s = false -> JS.existsb p (JS.replace_char a b s) = false.
Proof.
  intros Hb. induction s as [|c r IH]; [done|]. cbn [JS.replace_char JS.existsb].
  intros [Hc Hr]%orb_false_iff. rewrite (IH Hr), orb_false_r.
  by destruct (Ascii.eqb c a).
Qed.

Lemma normalize_output_shape (content : string) :
  String.length (normalizeBase64ForDecode content) mod 4 = 0 /\
  JS.existsb (fun c => Ascii.eqb c "-") (normalizeBase64ForDecode content) = false /\
  JS.existsb (fun c => Ascii.eqb c "_") (normalizeBase64ForDecode content) = false.
Proof.
  unfold normalizeBase64ForDecode.
  set (s := JS.replace_char "_" "/" (JS.replace_char "-" "+" _)).
  assert (Hdash : JS.existsb (fun c => Ascii.eqb c "-") s = false).
  { apply replace_char_keeps_absent; [done|]. by apply replace_char_removes. }
  assert (Hund : JS.existsb (fun c => Ascii.eqb c "_") s = false)
    by (by apply replace_char_removes).
  destruct (Nat.eqb_spec (String.length s mod 4) 0) as [Hz|Hnz]; [done|].
  split; [|split].
  - rewrite append_length, repeat_length.
    pose proof (Nat.mod_upper_bound (String.length s) 4 ltac:(lia)) as Hlt.
    pose proof (Nat.div_mod_eq (String.length s) 4) as Hdm.
    replace (String.length s + (4 - String.length s mod 4))
      with ((String.length s / 4 + 1) * 4) by lia.
    apply Nat.Div0.mod_mul.
  - by rewrite existsb_append, Hdash, existsb_repeat.
  - by rewrite existsb_append, Hund, existsb_repeat.
Qed.

(** X4. Whatever the content, the text the normalizer returns is a multiple
    of four characters long and holds neither [-] nor [_]. *)
Theorem X4_normalize_output (content : string) :
  String.length (normalizeBase64ForDecode content) mod 4 = 0 /\
  JS.existsb (fun c => Ascii.eqb c "-") (normalizeBase64ForDecode content) = false /\
  JS.existsb (fun c => Ascii.eqb c "_") (normalizeBase64ForDecode content) = false.
Proof. apply normalize_output_shape. Qed.

(** ** X5: sniffing reads a bounded prefix *)

Lemma flush_length g : 4 * length (Buffer.flush g) <= 3 * pending g.
Proof. destruct g; simpl; lia. Qed.

(** Four characters give at most three bytes. *)
Lemma decode_length g s :
  4 * length (Buffer.decode g s) <= 3 * (pending g + String.length s).
Proof.
  revert g. induction s as [|c r IH]; intros g; cbn [Buffer.decode String.length].
  - pose proof (flush_length g). lia.
  - destruct (Ascii.eqb c "="); [pose proof (flush_length g); lia|].
    destruct (Buffer.unbase64 c) as [v|]; [|specialize (IH g); lia].
    destruct g as [|a|a b|a b d].
    + specialize (IH (Buffer.G1 v)). simpl in *. lia.
    + specialize (IH (Buffer.G2 a v)). simpl in *. lia.
    + specialize (IH (Buffer.G3 a b v)). simpl in *. lia.
    + specialize (IH Buffer.G0). simpl in *. lia.
Qed.

Lemma slice0_length n s : String.length (JS.slice0 n s) = Nat.min n (String.length s).
Proof.
  revert s. induction n as [|n IH]; intros [|c r]; simpl; try done. by rewrite IH.
Qed.

Lemma slice0_min n s : JS.slice0 (Nat.min n (String.length s)) s = JS.slice0 n s.
Proof.
  revert s. induction n as [|n IH]; intros [|c r]; simpl; try done. by rewrite IH.
Qed.

(** X5. Sniffing gives up on a content whose normalized text is shorter
    than eight characters, without asking the detector.  Otherwise it hands
    the detector the bytes of the first 256 characters of the normalized
    text, which are at most 192 bytes, whatever the size of the payload. *)
Theorem X5_sniff_bounded_prefix (detectMime : list byte -> option string) (base64 : string) :
  let normalized := normalizeBase64ForDecode base64 in
  let head := Buffer.from_base64 (JS.slice0 256 normalized) in
  (String.length normalized < 8 -> sniffMimeFromBase64 detectMime base64 = None) /\
  (8 <= String.length normalized -> sniffMimeFromBase64 detectMime base64 = detectMime head) /\
  length head <= 192.
Proof.
  intros normalized head.
  destruct (normalize_output_shape base64) as [Hmod _]. fold normalized in Hmod.
  assert (Hslice : let take := Nat.min 256 (String.length normalized) in
                   take - take mod 4 = take).
  { cbv zeta. destruct (Nat.min_spec 256 (String.length normalized)) as [[_ ->]|[_ ->]].
    - reflexivity.
    - rewrite Hmod. lia. }
  cbv zeta in Hslice.
  split; [|split].
  - intros Hshort. unfold sniffMimeFromBase64. fold normalized.
    destruct (String.eqb normalized ""); [done|]. rewrite Hslice.
    destruct (Nat.ltb_spec (Nat.min 256 (String.length normalized)) 8); [done|lia].
  - intros Hlong. unfold sniffMimeFromBase64. fold normalized.
    destruct (String.eqb_spec normalized "") as [Hempty|_].
    { rewrite Hempty in Hlong. simpl in Hlong. lia. }
    rewrite Hslice, slice0_min.
    destruct (Nat.ltb_spec (Nat.min 256 (String.length normalized)) 8); [lia|done].
  - unfold head, Buffer.from_base64.
    pose proof (decode_length Buffer.G0 (JS.slice0 256 normalized)) as Hlen.
    rewrite slice0_length in Hlen. simpl pending in Hlen. lia.
Qed.

(** ** X6, X7: which errors each path can raise *)

Section Failures.

Variable detectMime : list byte -> option string.
Variable maxBytes : Z.

Lemma size_rejected_true size : size_rejected size maxBytes = true ->
  size = 0 \/ (maxBytes < Z.of_nat size)%Z.
Proof. unfold size_rejected. intros H%orb_true_iff. lia. Qed.




Lemma parse_iter_throw log idx entry e :
  snd (parseMessageWithAttachments_iter detectMime maxBytes log idx entry) = Throw e ->
  exists att,
    entry = Some att /\
    let label := label_of (att_fileName att) (att_type att) idx in
    (has_string_content att = false /\ e = ContentMustBeBase64String label) \/
    (exists content, att_content att = UString content /\
                     validation_failure maxBytes label content e).
Proof.
  unfold parseMessageWithAttachments_iter, has_string_content, validation_failure,
    decoded_size.
  destruct entry as [att|]; [|discriminate]. intros H. exists att. split; [done|].
  cbv zeta. destruct (att_content att) as [|content|].
  - injection H as <-. by left.
  - right. exists content. split; [done|].
    destruct (has_illegal_char _) eqn:Hill; [injection H as <-; by left|].
    destruct (size_rejected _ _) eqn:Hsize.
    + injection H as <-. right. split; [done|]. split; [done|].
      by apply size_rejected_true.
    + rewrite !snd_if in H. cbn [snd] in H.
      repeat match type of H with
             | (if ?b then _ else _) = _ => destruct b
             end; discriminate.
  - injection H as <-. by left.
Qed.

Lemma parse_loop_throw log idx entries imgs log' e :
  parseMessageWithAttachments_loop detectMime maxBytes log idx entries imgs = (log', Throw e) ->
  exists i entry,
    entries !! i = Some entry /\
    snd (parseMessageWithAttachments_iter detectMime maxBytes None (idx + i) entry) = Throw e.
Proof.
  revert log idx imgs. induction entries as [|entry rest IH]; intros log idx imgs;
    [discriminate|].
  cbn [parseMessageWithAttachments_loop].
  pose proof (parse_iter_snd detectMime maxBytes log idx entry) as Hsnd.
  destruct (parseMessageWithAttachments_iter detectMime maxBytes log idx entry)
    as [log1 [[img|]|e']]; cbn [snd] in Hsnd.
  - intros (i & entry' & Hi & Hthrow)%IH. exists (S i), entry'.
    split; [done|]. by replace (idx + S i) with (S idx + i) by lia.
  - intros (i & entry' & Hi & Hthrow)%IH. exists (S i), entry'.
    split; [done|]. by replace (idx + S i) with (S idx + i) by lia.
  - intros [= _ <-]. exists 0, entry. by rewrite Nat.add_0_r.
Qed.

End Failures.



(** X7. When [parseMessageWithAttachments] fails, the error names an
    attachment of the list: UnsupportedContentShape when its content is not
    a string, otherwise InvalidEncoding or SizeExceeded as its content
    warrants.  The declared type never makes the lenient path fail. *)
Theorem X7_lenient_path_failures (detectMime : list byte -> option string)
    (msg : string) (attachments : option (list (option ChatAttachment)))
    (opts : option ParseOpts) (log' : option AttachmentLog) (e : AttachmentError) :
  parseMessageWithAttachments detectMime msg attachments opts = (log', Throw e) ->
  let maxBytes := default 5000000%Z (opts ≫= opt_maxBytes) in
  error_kind e <> NotAnImage /\
  exists entries i att,
    attachments = Some entries /\ entries !! i = Some (Some att) /\
    let label := label_of (att_fileName att) (att_type att) i in
    (has_string_content att = false /\ e = ContentMustBeBase64String label) \/
    (exists content, att_content att = UString content /\
                     validation_failure maxBytes label content e).
Proof.
  intros H maxBytes. destruct attachments as [entries|]; [|discriminate].
  rewrite parseMessageWithAttachments_some in H. fold maxBytes in H.
  destruct (parseMessageWithAttachments_loop detectMime maxBytes _ 0 entries [])
    as [log1 [imgs|e']] eqn:Hloop; [discriminate|].
  injection H as _ <-.
  apply parse_loop_throw in Hloop as (i & entry & Hi & Hthrow).
  apply parse_iter_throw in Hthrow as (att & -> & Hcase). cbv zeta in Hcase.
  split.
  - destruct Hcase as [[_ ->]|(content & _ & [[-> _]|[-> _]])]; discriminate.
  - by exists entries, i, att.
Qed.

Lemma X7_lenient_path_failures_witness :
  parseMessageWithAttachments magicDetect "hi"
    (Some [attachment (Some "image/jpeg") "photo.jpg" (UString "/9j/4A!Q")]) None
  = (None, Throw (InvalidBase64Content "photo.jpg")) /\
  error_kind (InvalidBase64Content "photo.jpg") <> NotAnImage.
Proof.
  split; [reflexivity|].
  exact (proj1 (X7_lenient_path_failures magicDetect "hi"
                  (Some [attachment (Some "image/jpeg") "photo.jpg" (UString "/9j/4A!Q")])
                  None None (InvalidBase64Content "photo.jpg") eq_refl)).
Defined.

(** ** X8: the warning sink *)

Section SinkGrowth.

Variable detectMime : list byte -> option string.
Variable maxBytes : Z.

Lemma grows_by_refl n log : grows_by n log log.
Proof. destruct log as [l|]; [|done]. exists []. rewrite app_nil_r. split; [done|simpl; lia]. Qed.

Lemma grows_by_warn n log msg : 1 <= n -> grows_by n log (warn log msg).
Proof. intros Hn. destruct log as [l|]; [|done]. by exists [msg]. Qed.

Lemma grows_by_trans n1 n2 a b c :
  grows_by n1 a b -> grows_by n2 b c -> grows_by (n1 + n2) a c.
Proof.
  destruct a as [l|]; simpl.
  - intros (m1 & -> & H1) (m2 & -> & H2). exists (m1 ++ m2).
    rewrite app_assoc, length_app. split; [done|lia].
  - by intros ->.
Qed.

Lemma grows_by_weaken n m a b : n <= m -> grows_by n a b -> grows_by m a b.
Proof.
  intros Hnm. destruct a as [l|]; simpl; [|done].
  intros (more & -> & H). exists more. split; [done|lia].
Qed.

Lemma parse_iter_grows log idx entry :
  grows_by (match entry with Some _ => 1 | None => 0 end) log
    (fst (parseMessageWithAttachments_iter detectMime maxBytes log idx entry)).
Proof.
  unfold parseMessageWithAttachments_iter.
  destruct entry as [att|]; [|apply grows_by_refl].
  destruct (att_content att); try apply grows_by_refl.
  rewrite !fst_if. cbn [fst].
  repeat match goal with
         | |- context [if ?b then _ else _] => destruct b
         end; first [apply grows_by_refl | by apply grows_by_warn].
Qed.

Lemma parse_loop_grows log idx entries imgs :
  grows_by (length (attachments_of entries)) log
    (fst (parseMessageWithAttachments_loop detectMime maxBytes log idx entries imgs)).
Proof.
  revert log idx imgs. induction entries as [|entry rest IH]; intros log idx imgs.
  - apply grows_by_refl.
  - cbn [parseMessageWithAttachments_loop].
    pose proof (parse_iter_grows log idx entry) as Hit.
    assert (Hlen : length (attachments_of (entry :: rest))
                   = match entry with Some _ => 1 | None => 0 end
                     + length (attachments_of rest)) by (by destruct entry).
    rewrite Hlen.
    destruct (parseMessageWithAttachments_iter detectMime maxBytes log idx entry)
      as [log1 [[img|]|e]]; cbn [fst] in Hit.
    + eapply grows_by_trans; [exact Hit|apply IH].
    + eapply grows_by_trans; [exact Hit|apply IH].
    + eapply grows_by_weaken; [|exact Hit]. lia.
Qed.

End SinkGrowth.

(** X8. Whether it returns or fails, [parseMessageWithAttachments] only
    appends to the warning sink: what the sink held before the call is still
    there, in order, followed by at most one new warning per attachment of
    the list.  Without a sink there is none afterwards. *)
Theorem X8_sink_only_grows (detectMime : list byte -> option string)
    (msg : string) (attachments : option (list (option ChatAttachment)))
    (opts : option ParseOpts) :
  grows_by (length (attachments_of (default [] attachments))) (opts ≫= opt_log)
    (fst (parseMessageWithAttachments detectMime msg attachments opts)).
Proof.
  destruct attachments as [entries|]; [|apply grows_by_refl].
  rewrite parseMessageWithAttachments_some. cbn [default from_option id].
  pose proof (parse_loop_grows detectMime (default 5000000%Z (opts ≫= opt_maxBytes))
                (opts ≫= opt_log) 0 entries []) as H.
  by destruct (parseMessageWithAttachments_loop _ _ _ 0 entries []) as [log1 [imgs|e]].
Qed.

(** ** X9: the images the lenient path returns *)

Section ImageShape.

Variable detectMime : list byte -> option string.
Variable maxBytes : Z.

Lemma normalizeMime_not_empty o : normalizeMime o <> Some "".
Proof. intros H. apply normalizeMime_truthy in H. discriminate. Qed.

Lemma kept_image_shape idx entry img :
  kept_image detectMime maxBytes idx entry = Some img ->
  has_illegal_char (img_data img) = false /\
  (1 <= Z.of_nat (length (Buffer.from_base64 (img_data img))) <= maxBytes)%Z /\
  JS.startsWith (img_mimeType img) "image/" = true /\
  is_lowercase (img_mimeType img) /\ parameter_free (img_mimeType img).
Proof.
  unfold kept_image, parseMessageWithAttachments_iter.
  destruct entry as [att|]; [|discriminate].
  destruct (att_content att) as [|content|]; try discriminate.
  destruct (has_illegal_char _) eqn:Hill; [discriminate|].
  destruct (size_rejected _ _) eqn:Hsize; [discriminate|].
  apply size_rejected_false in Hsize.
  rewrite !snd_if, normalizeMime_default. cbn [snd].
  destruct (normalizeMime (sniffMimeFromBase64 detectMime _)) as [s|] eqn:Hs.
  - pose proof (normalizeMime_truthy _ _ Hs) as Ht. rewrite Ht. cbn [andb negb].
    destruct (isImageMime (Some s)) eqn:Himg; cbn [negb]; [|discriminate].
    intros H%(inj Some). rewrite <- H. cbn [img_data img_mimeType].
    destruct (normalizeMime_shape _ _ Hs). done.
  - cbn [JS.truthy andb negb].
    destruct (normalizeMime (att_mimeType att)) as [p|] eqn:Hp; cbn [isImageMime];
      [|discriminate].
    destruct (JS.startsWith p "image/") eqn:Himg; cbn [negb]; [|discriminate].
    intros H%(inj Some). rewrite <- H. cbn [img_data img_mimeType].
    destruct (normalizeMime_shape _ _ Hp). done.
Qed.

Lemma elem_of_omap_imap {A B} (f : nat -> A -> option B) (l : list A) (y : B) :
  y ∈ omap id (imap f l) -> exists i x, l !! i = Some x /\ f i x = Some y.
Proof.
  revert f. induction l as [|x l IH]; intros f.
  - intros H. by apply elem_of_nil in H.
  - rewrite omap_imap_cons. destruct (f 0 x) as [y'|] eqn:H0.
    + intros [->|H]%elem_of_cons; [by exists 0, x|].
      apply IH in H as (i & x' & Hi & Hf). by exists (S i), x'.
    + intros H. apply IH in H as (i & x' & Hi & Hf). by exists (S i), x'.
Qed.

End ImageShape.

(** X9. Every image [parseMessageWithAttachments] returns is well formed:
    its tag is [image]; its data holds only base64 characters and decodes to
    between 1 and [maxBytes] bytes; its type begins with [image/], is
    lowercase and carries no parameter. *)
Theorem X9_returned_images_well_formed (detectMime : list byte -> option string)
    (msg : string) (attachments : option (list (option ChatAttachment)))
    (opts : option ParseOpts) (log' : option AttachmentLog)
    (out : ParsedMessageWithImages) (img : ChatImageContent) :
  parseMessageWithAttachments detectMime msg attachments opts = (log', Ok out) ->
  img ∈ images out ->
  let maxBytes := default 5000000%Z (opts ≫= opt_maxBytes) in
  img_type img = "image" /\
  has_illegal_char (img_data img) = false /\
  (1 <= Z.of_nat (length (Buffer.from_base64 (img_data img))) <= maxBytes)%Z /\
  JS.startsWith (img_mimeType img) "image/" = true /\
  is_lowercase (img_mimeType img) /\ parameter_free (img_mimeType img).
Proof.
  intros H Hin maxBytes.
  destruct attachments as [entries|];
    [|injection H as _ <-; by apply elem_of_nil in Hin].
  rewrite parseMessageWithAttachments_some in H. fold maxBytes in H.
  destruct (parseMessageWithAttachments_loop detectMime maxBytes _ 0 entries [])
    as [log1 [imgs|e]] eqn:Hloop; [|discriminate].
  injection H as _ <-. cbn [images] in Hin.
  apply parse_loop_images in Hloop as ->. cbn [app] in Hin.
  apply elem_of_omap_imap in Hin as (i & entry & _ & Hkept). cbn [Nat.add] in Hkept.
  split; [by apply kept_image_data in Hkept as [_ ?]|].
  by apply (kept_image_shape detectMime maxBytes i entry).
Qed.

Lemma X9_returned_images_well_formed_witness :
  parseMessageWithAttachments magicDetect "hi"
    (Some [attachment (Some "Image/PNG; q=1") "shot" (UString "_9j_4A")]) None
  = (None, Ok {| message := "hi";
                 images := [{| img_type := "image"; img_data := "/9j/4A==";
                               img_mimeType := "image/jpeg" |}] |}) /\
  JS.startsWith "image/jpeg" "image/" = true.
Proof.
  split; [reflexivity|].
  exact (proj1 (proj2 (proj2 (proj2
    (X9_returned_images_well_formed magicDetect "hi"
       (Some [attachment (Some "Image/PNG; q=1") "shot" (UString "_9j_4A")]) None None
       {| message := "hi";
          images := [{| img_type := "image"; img_data := "/9j/4A==";
                        img_mimeType := "image/jpeg" |}] |}
       {| img_type := "image"; img_data := "/9j/4A=="; img_mimeType := "image/jpeg" |}
       eq_refl ltac:(apply list_elem_of_singleton; reflexivity)))))).
Defined.

(** ** X10: the legacy encoder refuses what is not declared an image *)

(** X10. [buildMessageWithAttachments] fails as soon as the list holds an
    attachment with string content whose declared type does not begin with
    [image/] (an audio attachment, an attachment without declared type, a
    type written in capitals): the call always fails, and it fails with the
    image-only error naming that attachment when every earlier attachment
    is accepted. *)
Theorem X10_legacy_image_only (msg : string) (opts : option BuildOpts)
    (pre post : list (option ChatAttachment)) (att : ChatAttachment) (content : string) :
  att_content att = UString content ->
  JS.startsWith (default "" (att_mimeType att)) "image/" = false ->
  exists e,
    buildMessageWithAttachments msg (Some (pre ++ Some att :: post)) opts = Throw e /\
    forall blocks,
      buildMessageWithAttachments_loop (default 2000000%Z (opts ≫= build_maxBytes)) 0 pre []
      = Ok blocks ->
      e = OnlyImageSupported (label_of (att_fileName att) (att_type att) (length pre)).
Proof.
  intros Hc Hmime.
  assert (Hit : forall m idx,
             buildMessageWithAttachments_iter m idx (Some att)
             = Throw (OnlyImageSupported (label_of (att_fileName att) (att_type att) idx))).
  { intros m idx. unfold buildMessageWithAttachments_iter. by rewrite Hc, Hmime. }
  destruct (buildMessageWithAttachments_loop
              (default 2000000%Z (opts ≫= build_maxBytes)) 0 pre []) as [blocks|e] eqn:Hpre.
  - eexists. split; [|intros ? _; reflexivity].
    apply buildMessageWithAttachments_throw.
    rewrite buildMessageWithAttachments_loop_app, Hpre.
    cbn [buildMessageWithAttachments_loop]. by rewrite Hit.
  - exists e. split; [|done].
    apply buildMessageWithAttachments_throw.
    by rewrite buildMessageWithAttachments_loop_app, Hpre.
Qed.

Lemma X10_legacy_image_only_witness :
  buildMessageWithAttachments "hi"
    (Some [attachment (Some "image/jpeg") "photo.jpg" (UString jpeg_b64);
           attachment (Some "audio/ogg") "voice.ogg" (UString ogg_b64)]) None
  = Throw (OnlyImageSupported "voice.ogg").
Proof.
  destruct (X10_legacy_image_only "hi" None
              [attachment (Some "image/jpeg") "photo.jpg" (UString jpeg_b64)] []
              {| att_type := None; att_mimeType := Some "audio/ogg";
                 att_fileName := Some "voice.ogg"; att_content := UString ogg_b64 |}
              ogg_b64 eq_refl eq_refl) as (e & Hcall & Hpre).
  rewrite (Hpre ["![photo.jpg](data:image/jpeg;base64,/9j/4AAQ)"] eq_refl) in Hcall.
  exact Hcall.
Defined.

(** ** X11: what the legacy encoder accepts, the lenient path accepts *)

Section LegacyLenient.

Variable detectMime : list byte -> option string.

Lemma valid_content_mono content m m' :
  (m <= m')%Z -> valid_content content m -> valid_content content m'.
Proof. intros Hm [Hlegal Hsize]. split; [done|lia]. Qed.

Lemma parse_iter_valid_ok maxBytes log idx att content :
  att_content att = UString content ->
  valid_content content maxBytes ->
  exists log' r,
    parseMessageWithAttachments_iter detectMime maxBytes log idx (Some att) = (log', Ok r).
Proof.
  intros Hc Hvalid. rewrite (parse_iter_valid _ _ _ _ _ _ Hc Hvalid).
  repeat match goal with
         | |- context [if ?b then (_, _) else _] => destruct b
         end; eauto.
Qed.

(** An attachment the legacy encoder accepts passes the validation of the
    other paths, its trimmed content being canonical already. *)
Lemma build_iter_ok maxBytes idx att block :
  buildMessageWithAttachments_iter maxBytes idx (Some att) = Ok block ->
  exists content,
    att_content att = UString content /\
    valid_content content maxBytes /\
    normalizeBase64ForDecode content = JS.trim content /\
    is_Some block.
Proof.
  unfold buildMessageWithAttachments_iter.
  destruct (att_content att) as [|content|]; try discriminate.
  destruct (JS.startsWith _ "image/"); [|discriminate]. cbn [negb].
  destruct (Nat.eqb_spec (String.length (JS.trim content) mod 4) 0) as [Hlen|];
    [|discriminate].
  destruct (has_illegal_char (JS.trim content)) eqn:Hlegal; [discriminate|]. cbn [negb orb].
  destruct (size_rejected _ _) eqn:Hsize; [discriminate|].
  intros [= <-]. exists content.
  pose proof (normalize_legal_trimmed content Hlegal Hlen) as Hnorm.
  split; [done|]. split; [|split; [done|by eexists]].
  split; [by rewrite Hnorm|]. unfold decoded_size. rewrite Hnorm.
  by apply size_rejected_false.
Qed.

Lemma build_loop_lenient m m' idx entries blocks blocks' :
  (m <= m')%Z ->
  buildMessageWithAttachments_loop m idx entries blocks = Ok blocks' ->
  forall log imgs, exists log' imgs',
    parseMessageWithAttachments_loop detectMime m' log idx entries imgs = (log', Ok imgs').
Proof.
  intros Hm. revert idx blocks. induction entries as [|entry rest IH]; intros idx blocks.
  - intros _ log imgs. by eexists _, _.
  - cbn [buildMessageWithAttachments_loop parseMessageWithAttachments_loop].
    destruct (buildMessageWithAttachments_iter m idx entry) as [block|e] eqn:Hit;
      [|discriminate].
    cbn [mbind result_bind]. intros Hrest log imgs.
    assert (Hp : exists log1 r,
               parseMessageWithAttachments_iter detectMime m' log idx entry = (log1, Ok r)).
    { destruct entry as [att|]; [|by eexists _, _].
      apply build_iter_ok in Hit as (content & Hc & Hvalid & _).
      eapply parse_iter_valid_ok; [done|]. by eapply valid_content_mono. }
    destruct Hp as (log1 & r & ->).
    destruct block as [dataUrl|]; destruct r as [img|]; by eapply IH.
Qed.

End LegacyLenient.

(** X11. The legacy encoder is the stricter of the two image paths: when
    [buildMessageWithAttachments] accepts a list under its ceiling, the
    lenient path, under a ceiling at least as large (as the defaults
    2,000,000 and 5,000,000 are), does not fail on that list, whatever the
    detector reports. *)
Theorem X11_legacy_accepts_implies_lenient (detectMime : list byte -> option string)
    (msg : string) (attachments : option (list (option ChatAttachment)))
    (bopts : option BuildOpts) (popts : option ParseOpts) (out : string) :
  buildMessageWithAttachments msg attachments bopts = Ok out ->
  (default 2000000 (bopts ≫= build_maxBytes) <= default 5000000 (popts ≫= opt_maxBytes))%Z ->
  exists log' parsed,
    parseMessageWithAttachments detectMime msg attachments popts = (log', Ok parsed).
Proof.
  intros Hbuild Hm. destruct attachments as [entries|]; [|by eexists _, _].
  rewrite parseMessageWithAttachments_some.
  destruct (buildMessageWithAttachments_loop
              (default 2000000%Z (bopts ≫= build_maxBytes)) 0 entries []) as [blocks|e] eqn:Hloop.
  - destruct (build_loop_lenient detectMime _ _ 0 entries [] blocks Hm Hloop
                (popts ≫= opt_log) []) as (log' & imgs & ->).
    by eexists _, _.
  - by rewrite (buildMessageWithAttachments_throw msg entries bopts e Hloop) in Hbuild.
Qed.

Lemma X11_legacy_accepts_implies_lenient_witness :
  exists log' parsed,
    parseMessageWithAttachments magicDetect "hi"
      (Some [attachment (Some "image/png") "a.png" (UString ogg_b64)]) None
    = (log', Ok parsed).
Proof.
  apply (X11_legacy_accepts_implies_lenient magicDetect "hi"
           (Some [attachment (Some "image/png") "a.png" (UString ogg_b64)]) None None
           ("hi" +:+ blank_line +:+ "![a.png](data:image/png;base64,T2dnUwAC)")).
  - reflexivity.
  - vm_compute. discriminate.
Defined.

(** ** X12: the text the legacy encoder returns *)

Lemma build_loop_blocks maxBytes idx entries blocks blocks' :
  buildMessageWithAttachments_loop maxBytes idx entries blocks = Ok blocks' ->
  length blocks' = length blocks + length (attachments_of entries).
Proof.
  revert idx blocks. induction entries as [|entry rest IH]; intros idx blocks.
  - intros [= <-]. simpl. lia.
  - cbn [buildMessageWithAttachments_loop].
    destruct (buildMessageWithAttachments_iter maxBytes idx entry) as [block|e] eqn:Hit;
      [|discriminate].
    cbn [mbind result_bind]. destruct entry as [att|].
    + apply build_iter_ok in Hit as (_ & _ & _ & _ & [dataUrl ->]).
      intros ->%IH. rewrite length_app. simpl. lia.
    + injection Hit as <-. by intros ->%IH.
Qed.

(** X12. When [buildMessageWithAttachments] returns, it returns the message
    unchanged if the list holds no attachment; otherwise the message, a
    blank line unless the message is empty or all whitespace, and one block
    per attachment of the list, the blocks separated by blank lines.  The
    message is always the beginning of the text returned. *)
Theorem X12_legacy_output (msg : string)
    (attachments : option (list (option ChatAttachment))) (opts : option BuildOpts)
    (out : string) :
  buildMessageWithAttachments msg attachments opts = Ok out ->
  exists blocks,
    length blocks = length (attachments_of (default [] attachments)) /\
    out = match blocks with
          | [] => msg
          | _ => msg +:+ (if Nat.ltb 0 (String.length (JS.trim msg)) then blank_line else "")
                   +:+ JS.join blank_line blocks
          end /\
    exists tail, out = msg +:+ tail.
Proof.
  assert (Hnil : forall s : string, s = s +:+ "").
  { intros s. induction s as [|c s IH]; [done|]. by rewrite append_cons, <- IH. }
  intros H. destruct attachments as [entries|].
  - destruct (buildMessageWithAttachments_loop
                (default 2000000%Z (opts ≫= build_maxBytes)) 0 entries []) as [blocks|e] eqn:Hloop;
      [|by rewrite (buildMessageWithAttachments_throw msg entries opts e Hloop) in H].
    exists blocks. split; [by apply build_loop_blocks in Hloop|].
    assert (Hout : out = match blocks with
                         | [] => msg
                         | _ => msg +:+ (if Nat.ltb 0 (String.length (JS.trim msg))
                                         then blank_line else "")
                                  +:+ JS.join blank_line blocks
                         end).
    { destruct entries as [|entry rest].
      - injection Hloop as <-. by injection H.
      - unfold buildMessageWithAttachments in H. rewrite Hloop in H.
        cbn [mbind result_bind] in H. destruct blocks; by injection H. }
    split; [done|]. rewrite Hout. destruct blocks; [by exists ""|by eexists].
  - injection H as <-. exists []. split; [done|]. split; [done|]. by exists "".
Qed.

Lemma X12_legacy_output_witness :
  exists blocks,
    length blocks = 2 /\
    "hi" +:+ blank_line +:+ "![a.png](data:image/png;base64,iVBORw0K)" +:+ blank_line
      +:+ "![b.jpg](data:image/jpeg;base64,/9j/4AAQ)"
    = "hi" +:+ blank_line +:+ JS.join blank_line blocks.
Proof.
  destruct (X12_legacy_output "hi"
              (Some [attachment (Some "image/png") "a.png" (UString png_b64); None;
                     attachment (Some "image/jpeg") "b.jpg" (UString jpeg_b64)]) None
              ("hi" +:+ blank_line +:+ "![a.png](data:image/png;base64,iVBORw0K)"
                 +:+ blank_line +:+ "![b.jpg](data:image/jpeg;base64,/9j/4AAQ)") eq_refl)
    as (blocks & Hlen & Hout & _).
  exists blocks. split; [exact Hlen|].
  destruct blocks; [discriminate Hlen|exact Hout].
Defined.

(** ** X13: a decided outcome is final *)

(** X13. All three paths stop at the attachment that decides the call.  If
    the strict path selects an attachment or fails on a list, it gives the
    same outcome on that list followed by any further attachments; if the
    lenient path or the legacy encoder fails on a list, it fails with the
    same error (the lenient path with the same sink) however the list is
    continued. *)
Theorem X13_decided_outcome_is_final (detectMime : list byte -> option string)
    (pre post : list (option ChatAttachment)) :
  (forall maxBytes outcome,
      getFirstAudioAttachment detectMime (Some pre) maxBytes = outcome ->
      outcome <> Ok None ->
      getFirstAudioAttachment detectMime (Some (pre ++ post)) maxBytes = outcome) /\
  (forall msg opts log' e,
      parseMessageWithAttachments detectMime msg (Some pre) opts = (log', Throw e) ->
      parseMessageWithAttachments detectMime msg (Some (pre ++ post)) opts = (log', Throw e)) /\
  (forall msg opts e,
      buildMessageWithAttachments msg (Some pre) opts = Throw e ->
      buildMessageWithAttachments msg (Some (pre ++ post)) opts = Throw e).
Proof.
  split; [|split].
  - intros maxBytes outcome H Hne. rewrite getFirstAudioAttachment_some in *.
    rewrite getFirstAudioAttachment_loop_app, H. by destruct outcome as [[r|]|e].
  - intros msg opts log' e. rewrite !parseMessageWithAttachments_some.
    rewrite parseMessageWithAttachments_loop_app.
    by destruct (parseMessageWithAttachments_loop _ _ _ 0 pre []) as [log1 [imgs|e']].
  - intros msg opts e H.
    destruct (buildMessageWithAttachments_loop
                (default 2000000%Z (opts ≫= build_maxBytes)) 0 pre []) as [blocks|e'] eqn:Hloop.
    + destruct pre as [|entry rest]; [discriminate|].
      unfold buildMessageWithAttachments in H. rewrite Hloop in H.
      cbn [mbind result_bind] in H. by destruct blocks.
    + rewrite (buildMessageWithAttachments_throw msg pre opts e' Hloop) in H.
      injection H as <-. apply buildMessageWithAttachments_throw.
      by rewrite buildMessageWithAttachments_loop_app, Hloop.
Qed.

Lemma X13_decided_outcome_is_final_witness :
  getFirstAudioAttachment magicDetect
    (Some [attachment (Some "audio/ogg") "voice.ogg" (UString ogg_b64);
           attachment (Some "audio/ogg") "broken.ogg" (UString "!!!!")]) 5000000
  = Ok (Some {| buffer := [x4f; x67; x67; x53; x00; x02]; mimeType := "audio/ogg" |}).
Proof.
  apply (proj1 (X13_decided_outcome_is_final magicDetect
                  [attachment (Some "audio/ogg") "voice.ogg" (UString ogg_b64)]
                  [attachment (Some "audio/ogg") "broken.ogg" (UString "!!!!")])
           5000000%Z); [reflexivity|discriminate].
Defined.

(** ** X14: raising the ceiling *)

Section Ceiling.

Variable detectMime : list byte -> option string.
Variables maxBytes maxBytes' : Z.
Hypothesis ceiling_raised : (maxBytes <= maxBytes')%Z.

Lemma size_rejected_mono size :
  size_rejected size maxBytes = false -> size_rejected size maxBytes' = false.
Proof. intros H%size_rejected_false. apply size_accepted. lia. Qed.

Lemma decode_mono natt idx r :
  decodeAndValidateAudioAttachment detectMime natt idx maxBytes = Ok r ->
  decodeAndValidateAudioAttachment detectMime natt idx maxBytes' = Ok r.
Proof.
  unfold decodeAndValidateAudioAttachment.
  destruct (has_illegal_char _); [discriminate|].
  destruct (size_rejected _ maxBytes) eqn:Hsize; [discriminate|].
  by rewrite (size_rejected_mono _ Hsize).
Qed.

Lemma audio_iter_mono idx entry r :
  getFirstAudioAttachment_iter detectMime maxBytes idx entry = Ok r ->
  getFirstAudioAttachment_iter detectMime maxBytes' idx entry = Ok r.
Proof.
  destruct entry as [att|]; [|done].
  destruct (att_content att) as [|content|] eqn:Hc;
    try (unfold getFirstAudioAttachment_iter; by rewrite Hc).
  rewrite !(audio_iter_string _ _ _ _ _ Hc).
  set (natt := {| norm_type := att_type att; norm_mimeType := att_mimeType att;
                  norm_fileName := att_fileName att; norm_content := content |}).
  destruct (decodeAndValidateAudioAttachment detectMime natt idx maxBytes)
    as [r'|e] eqn:Hdec.
  - by rewrite (decode_mono natt idx r' Hdec).
  - destruct (isAudioMime (normalizeMime (att_mimeType att))); [discriminate|].
    destruct (isAudioMime (normalizeMime (sniffMimeFromBase64 detectMime content)));
      [discriminate|done].
Qed.

Lemma audio_loop_mono idx entries r :
  getFirstAudioAttachment_loop detectMime maxBytes idx entries = Ok r ->
  getFirstAudioAttachment_loop detectMime maxBytes' idx entries = Ok r.
Proof.
  revert idx. induction entries as [|entry rest IH]; intros idx; [done|].
  rewrite !loop_cons.
  destruct (getFirstAudioAttachment_iter detectMime maxBytes idx entry) as [[r'|]|e] eqn:Hit;
    try discriminate; rewrite (audio_iter_mono _ _ _ Hit); [done|apply IH].
Qed.

Lemma parse_iter_mono log idx entry log' r :
  parseMessageWithAttachments_iter detectMime maxBytes log idx entry = (log', Ok r) ->
  parseMessageWithAttachments_iter detectMime maxBytes' log idx entry = (log', Ok r).
Proof.
  unfold parseMessageWithAttachments_iter.
  destruct entry as [att|]; [|done].
  destruct (att_content att); try discriminate.
  destruct (has_illegal_char _); [discriminate|].
  destruct (size_rejected _ maxBytes) eqn:Hsize; [discriminate|].
  by rewrite (size_rejected_mono _ Hsize).
Qed.

Lemma parse_loop_mono log idx entries imgs log' out :
  parseMessageWithAttachments_loop detectMime maxBytes log idx entries imgs = (log', Ok out) ->
  parseMessageWithAttachments_loop detectMime maxBytes' log idx entries imgs = (log', Ok out).
Proof.
  revert log idx imgs. induction entries as [|entry rest IH]; intros log idx imgs; [done|].
  cbn [parseMessageWithAttachments_loop].
  destruct (parseMessageWithAttachments_iter detectMime maxBytes log idx entry)
    as [log1 [[img|]|e]] eqn:Hit; try discriminate;
    rewrite (parse_iter_mono _ _ _ _ _ Hit); apply IH.
Qed.

End Ceiling.

(** X14. Raising the ceiling never changes a call that went through: with a
    larger [maxBytes] the strict path returns the same selection (or none)
    and the lenient path returns the same images and leaves the same
    warnings. *)
Theorem X14_larger_ceiling_same_result (detectMime : list byte -> option string)
    (maxBytes maxBytes' : Z) (attachments : option (list (option ChatAttachment))) :
  (maxBytes <= maxBytes')%Z ->
  (forall r,
      getFirstAudioAttachment detectMime attachments maxBytes = Ok r ->
      getFirstAudioAttachment detectMime attachments maxBytes' = Ok r) /\
  (forall msg log log' out,
      parseMessageWithAttachments detectMime msg attachments
        (Some {| opt_maxBytes := Some maxBytes; opt_log := log |}) = (log', Ok out) ->
      parseMessageWithAttachments detectMime msg attachments
        (Some {| opt_maxBytes := Some maxBytes'; opt_log := log |}) = (log', Ok out)).
Proof.
  intros Hm. split.
  - intros r. destruct attachments as [entries|]; [|done].
    rewrite !getFirstAudioAttachment_some. by apply audio_loop_mono.
  - intros msg log log' out. destruct attachments as [entries|]; [|done].
    rewrite !parseMessageWithAttachments_some.
    cbn [mbind option_bind opt_maxBytes opt_log default from_option id].
    destruct (parseMessageWithAttachments_loop detectMime maxBytes log 0 entries [])
      as [log1 [imgs|e]] eqn:Hloop; [|discriminate].
    by rewrite (parse_loop_mono detectMime _ _ Hm _ _ _ _ _ _ Hloop).
Qed.

Lemma X14_larger_ceiling_same_result_witness :
  getFirstAudioAttachment magicDetect
    (Some [attachment (Some "audio/ogg") "voice.ogg" (UString ogg_b64)]) 5000000
  = Ok (Some {| buffer := [x4f; x67; x67; x53; x00; x02]; mimeType := "audio/ogg" |}).
Proof.
  apply (proj1 (X14_larger_ceiling_same_result magicDetect 6 5000000
                  (Some [attachment (Some "audio/ogg") "voice.ogg" (UString ogg_b64)])
                  ltac:(lia))).
  reflexivity.
Defined.

(** ** X15: the sink does not influence the result *)

Lemma parse_loop_snd (detectMime : list byte -> option string) maxBytes log1 log2 idx
    entries imgs :
  snd (parseMessageWithAttachments_loop detectMime maxBytes log1 idx entries imgs)
  = snd (parseMessageWithAttachments_loop detectMime maxBytes log2 idx entries imgs).
Proof.
  revert log1 log2 idx imgs. induction entries as [|entry rest IH];
    intros log1 log2 idx imgs; [done|].
  cbn [parseMessageWithAttachments_loop].
  pose proof (parse_iter_snd detectMime maxBytes log1 idx entry) as H1.
  pose proof (parse_iter_snd detectMime maxBytes log2 idx entry) as H2.
  destruct (parseMessageWithAttachments_iter detectMime maxBytes log1 idx entry) as [l1 r1].
  destruct (parseMessageWithAttachments_iter detectMime maxBytes log2 idx entry) as [l2 r2].
  cbn [snd] in H1, H2. rewrite H1, H2.
  destruct (snd _) as [[img|]|e]; [apply IH|apply IH|done].
Qed.

(** X15. Whether a warning sink is passed, and what it holds, has no
    influence on what [parseMessageWithAttachments] returns or throws. *)
Theorem X15_result_independent_of_sink (detectMime : list byte -> option string)
    (msg : string) (attachments : option (list (option ChatAttachment)))
    (maxBytes : option Z) (log1 log2 : option AttachmentLog) :
  snd (parseMessageWithAttachments detectMime msg attachments
         (Some {| opt_maxBytes := maxBytes; opt_log := log1 |}))
  = snd (parseMessageWithAttachments detectMime msg attachments
           (Some {| opt_maxBytes := maxBytes; opt_log := log2 |})) /\
  snd (parseMessageWithAttachments detectMime msg attachments
         (Some {| opt_maxBytes := maxBytes; opt_log := log1 |}))
  = snd (parseMessageWithAttachments detectMime msg attachments
           (match maxBytes with
            | Some m => Some {| opt_maxBytes := Some m; opt_log := None |}
            | None => None
            end)).
Proof.
  assert (H : forall o1 o2 : option ParseOpts,
             o1 ≫= opt_maxBytes = o2 ≫= opt_maxBytes ->
             snd (parseMessageWithAttachments detectMime msg attachments o1)
             = snd (parseMessageWithAttachments detectMime msg attachments o2)).
  { intros o1 o2 Hm. destruct attachments as [entries|]; [|done].
    rewrite !parseMessageWithAttachments_some, Hm.
    pose proof (parse_loop_snd detectMime (default 5000000%Z (o2 ≫= opt_maxBytes))
                  (o1 ≫= opt_log) (o2 ≫= opt_log) 0 entries []) as Hs.
    destruct (parseMessageWithAttachments_loop _ _ (o1 ≫= opt_log) 0 entries [])
      as [l1 [i1|e1]];
      destruct (parseMessageWithAttachments_loop _ _ (o2 ≫= opt_log) 0 entries [])
        as [l2 [i2|e2]]; cbn [snd] in *; congruence. }
  split; apply H; [done|by destruct maxBytes].
Qed.

(** ** X16, X17: what the strict path selects *)

Section Selection.

Variable detectMime : list byte -> option string.
Variable maxBytes : Z.

Lemma decode_result_origin natt idx r :
  decodeAndValidateAudioAttachment detectMime natt idx maxBytes = Ok (Some r) ->
  valid_content (norm_content natt) maxBytes /\
  buffer r = Buffer.from_base64 (normalizeBase64ForDecode (norm_content natt)) /\
  JS.startsWith (mimeType r) "audio/" = true.
Proof.
  intros H. pose proof (decode_result_shape _ _ _ _ _ H) as (_ & Haudio & _).
  revert H. unfold decodeAndValidateAudioAttachment, valid_content, decoded_size.
  destruct (has_illegal_char _); [discriminate|].
  destruct (size_rejected _ _) eqn:Hsize; [discriminate|].
  apply size_rejected_false in Hsize.
  destruct (negb _); [discriminate|]. intros [= <-]. done.
Qed.

Lemma audio_iter_origin idx att r :
  getFirstAudioAttachment_iter detectMime maxBytes idx (Some att) = Ok (Some r) ->
  exists content,
    att_content att = UString content /\
    decodeAndValidateAudioAttachment detectMime
      {| norm_type := att_type att; norm_mimeType := att_mimeType att;
         norm_fileName := att_fileName att; norm_content := content |} idx maxBytes
    = Ok (Some r).
Proof.
  destruct (att_content att) as [|content|] eqn:Hc;
    try (unfold getFirstAudioAttachment_iter; rewrite Hc; discriminate).
  rewrite (audio_iter_string _ _ _ _ _ Hc). intros H. exists content. split; [done|].
  destruct (decodeAndValidateAudioAttachment _ _ idx maxBytes) as [[r'|]|e];
    destruct (isAudioMime (normalizeMime (att_mimeType att))),
      (isAudioMime (normalizeMime (sniffMimeFromBase64 detectMime content)));
    try discriminate; done.
Qed.

(** A valid attachment whose declared type is audio is selected by its
    iteration, with that type, whatever its bytes are. *)
Lemma audio_iter_declared idx att content declared :
  att_content att = UString content ->
  valid_content content maxBytes ->
  normalizeMime (att_mimeType att) = Some declared ->
  isAudioMime (Some declared) = true ->
  getFirstAudioAttachment_iter detectMime maxBytes idx (Some att)
  = Ok (Some {| buffer := Buffer.from_base64 (normalizeBase64ForDecode content);
                mimeType := declared |}).
Proof.
  intros Hc Hvalid Hdecl Haudio. rewrite (audio_iter_string _ _ _ _ _ Hc).
  rewrite Hdecl, Haudio, decode_valid by done.
  cbn [norm_mimeType norm_content]. by rewrite Hdecl, Haudio.
Qed.

End Selection.

(** X16. What [getFirstAudioAttachment] returns comes from one attachment of
    the list: that attachment has string content that passes validation
    (legal base64 decoding to between 1 and [maxBytes] bytes), the buffer
    returned is the decoding of its normalized content, and the type
    returned begins with [audio/]. *)
Theorem X16_selection_origin (detectMime : list byte -> option string) (maxBytes : Z)
    (attachments : option (list (option ChatAttachment))) (r : FirstAudioResult) :
  getFirstAudioAttachment detectMime attachments maxBytes = Ok (Some r) ->
  exists entries i att content,
    attachments = Some entries /\ entries !! i = Some (Some att) /\
    att_content att = UString content /\
    valid_content content maxBytes /\
    buffer r = Buffer.from_base64 (normalizeBase64ForDecode content) /\
    (1 <= Z.of_nat (length (buffer r)) <= maxBytes)%Z /\
    JS.startsWith (mimeType r) "audio/" = true.
Proof.
  destruct attachments as [entries|]; [|discriminate].
  rewrite getFirstAudioAttachment_some.
  intros (i & entry & Hi & Hit & _)%loop_some. cbn [Nat.add] in Hit.
  destruct entry as [att|]; [|discriminate].
  apply audio_iter_origin in Hit as (content & Hc & Hdec).
  apply decode_result_origin in Hdec as (Hvalid & Hbuf & Haudio).
  cbn [norm_content] in Hvalid, Hbuf.
  exists entries, i, att, content. repeat (split; [done|]).
  split; [|done]. rewrite Hbuf. exact (proj2 Hvalid).
Qed.

Lemma X16_selection_origin_witness :
  exists entries i att content,
    Some [attachment (Some "image/jpeg") "photo.jpg" (UString jpeg_b64);
          attachment None "voice" (UString "T2dnUwAC")] = Some entries /\
    entries !! i = Some (Some att) /\
    att_content att = UString content /\
    valid_content content 5000000 /\
    [x4f; x67; x67; x53; x00; x02] = Buffer.from_base64 (normalizeBase64ForDecode content) /\
    (1 <= Z.of_nat 6 <= 5000000)%Z /\
    JS.startsWith "audio/ogg" "audio/" = true.
Proof.
  exact (X16_selection_origin magicDetect 5000000
           (Some [attachment (Some "image/jpeg") "photo.jpg" (UString jpeg_b64);
                  attachment None "voice" (UString "T2dnUwAC")])
           {| buffer := [x4f; x67; x67; x53; x00; x02]; mimeType := "audio/ogg" |} eq_refl).
Defined.

(** X17. The strict path trusts a declared audio type: a valid attachment
    whose declared type is audio is selected with that type, without its
    bytes being looked at, as soon as no earlier attachment was selected or
    failed.  The detector is not consulted for it. *)
Theorem X17_declared_audio_is_trusted (detectMime detectMime' : list byte -> option string)
    (maxBytes : Z) (pre post : list (option ChatAttachment)) (att : ChatAttachment)
    (content declared : string) :
  att_content att = UString content ->
  valid_content content maxBytes ->
  normalizeMime (att_mimeType att) = Some declared ->
  isAudioMime (Some declared) = true ->
  getFirstAudioAttachment_loop detectMime maxBytes 0 pre = Ok None ->
  getFirstAudioAttachment detectMime (Some (pre ++ Some att :: post)) maxBytes
  = Ok (Some {| buffer := Buffer.from_base64 (normalizeBase64ForDecode content);
                mimeType := declared |}) /\
  getFirstAudioAttachment_iter detectMime' maxBytes (length pre) (Some att)
  = getFirstAudioAttachment_iter detectMime maxBytes (length pre) (Some att).
Proof.
  intros Hc Hvalid Hdecl Haudio Hpre. split.
  - rewrite getFirstAudioAttachment_some, getFirstAudioAttachment_loop_app, Hpre.
    rewrite loop_cons. by rewrite (audio_iter_declared _ _ _ _ _ _ Hc Hvalid Hdecl Haudio).
  - by rewrite !(audio_iter_declared _ _ _ _ _ _ Hc Hvalid Hdecl Haudio).
Qed.

Lemma X17_declared_audio_is_trusted_witness :
  getFirstAudioAttachment magicDetect
    (Some [attachment (Some "Audio/MPEG; rate=44100") "song.mp3" (UString jpeg_b64)]) 5000000
  = Ok (Some {| buffer := [xff; xd8; xff; xe0; x00; x10]; mimeType := "audio/mpeg" |}).
Proof.
  assert (Hvalid : valid_content jpeg_b64 5000000).
  { split; [reflexivity|]. vm_compute. split; discriminate. }
  exact (proj1 (X17_declared_audio_is_trusted magicDetect codecDetect 5000000 [] []
                  {| att_type := None; att_mimeType := Some "Audio/MPEG; rate=44100";
                     att_fileName := Some "song.mp3"; att_content := UString jpeg_b64 |}
                  jpeg_b64 "audio/mpeg" eq_refl Hvalid eq_refl eq_refl eq_refl)).
Defined.

(** ** X18, X19: what the lenient path keeps and what it drops *)

(** X18. For a valid attachment the lenient path decides by the sniffed type
    when there is one, and by the declared type only when nothing could be
    sniffed: the attachment is kept exactly when that type is an image type,
    and the image returned carries that type and the normalized content. *)
Theorem X18_lenient_classification (detectMime : list byte -> option string) (maxBytes : Z)
    (idx : nat) (att : ChatAttachment) (content : string) :
  att_content att = UString content ->
  valid_content content maxBytes ->
  let deciding :=
    match normalizeMime (sniffMimeFromBase64 detectMime (normalizeBase64ForDecode content)) with
    | Some sniffed => Some sniffed
    | None => normalizeMime (att_mimeType att)
    end in
  kept_image detectMime maxBytes idx (Some att) =
  match deciding with
  | Some type =>
      if JS.startsWith type "image/"
      then Some {| img_type := "image"; img_data := normalizeBase64ForDecode content;
                   img_mimeType := type |}
      else None
  | None => None
  end.
Proof.
  intros Hc Hvalid. cbv zeta. unfold kept_image.
  rewrite (parse_iter_valid _ _ _ _ _ _ Hc Hvalid).
  destruct (normalizeMime (sniffMimeFromBase64 detectMime _)) as [s|] eqn:Hs.
  - rewrite (normalizeMime_truthy _ _ Hs). cbn [andb negb isImageMime].
    by destruct (JS.startsWith s "image/").
  - cbn [JS.truthy andb negb].
    destruct (normalizeMime (att_mimeType att)) as [p|]; cbn [isImageMime negb]; [|done].
    by destruct (JS.startsWith p "image/").
Qed.

Lemma X18_lenient_classification_witness :
  kept_image magicDetect 5000000 0
    (attachment (Some "image/png") "doc.png" (UString pdf_b64)) = None /\
  kept_image magicDetect 5000000 0
    (attachment (Some "image/webp") "pic.webp" (UString "AAAAAAAA"))
  = Some {| img_type := "image"; img_data := "AAAAAAAA"; img_mimeType := "image/webp" |}.
Proof.
  assert (Hpdf : valid_content pdf_b64 5000000).
  { split; [reflexivity|]. vm_compute. split; discriminate. }
  assert (Hzero : valid_content "AAAAAAAA" 5000000).
  { split; [reflexivity|]. vm_compute. split; discriminate. }
  split.
  - exact (X18_lenient_classification magicDetect 5000000 0
             {| att_type := None; att_mimeType := Some "image/png";
                att_fileName := Some "doc.png"; att_content := UString pdf_b64 |}
             pdf_b64 eq_refl Hpdf).
  - exact (X18_lenient_classification magicDetect 5000000 0
             {| att_type := None; att_mimeType := Some "image/webp";
                att_fileName := Some "pic.webp"; att_content := UString "AAAAAAAA" |}
             "AAAAAAAA" eq_refl Hzero).
Defined.

(** X19. When the lenient path drops a valid attachment, it warns unless the
    attachment is audio.  With a sniffed type that is not an image type, the
    drop is silent when that type is audio, or is [video/mp4] under a
    declared audio type, and otherwise leaves one warning naming the
    attachment and the sniffed type.  With nothing sniffed and a declared
    type that is not an image type, the drop is silent when the declared
    type is audio and otherwise leaves one warning naming the attachment. *)
Theorem X19_dropped_attachments (detectMime : list byte -> option string) (maxBytes : Z)
    (log : option AttachmentLog) (idx : nat) (att : ChatAttachment) (content : string) :
  att_content att = UString content ->
  valid_content content maxBytes ->
  let label := label_of (att_fileName att) (att_type att) idx in
  let declared := normalizeMime (att_mimeType att) in
  let sniffed :=
    normalizeMime (sniffMimeFromBase64 detectMime (normalizeBase64ForDecode content)) in
  (forall s, sniffed = Some s -> isImageMime (Some s) = false ->
     parseMessageWithAttachments_iter detectMime maxBytes log idx (Some att) =
     ((if isAudioMime (Some s) || isAudioMime declared && String.eqb s "video/mp4"
       then log
       else warn log ("attachment " +:+ label +:+ ": detected non-image (" +:+ s
                        +:+ "), dropping")),
      Ok None)) /\
  (sniffed = None -> isImageMime declared = false ->
     parseMessageWithAttachments_iter detectMime maxBytes log idx (Some att) =
     ((if isAudioMime declared
       then log
       else warn log ("attachment " +:+ label
                        +:+ ": unable to detect image mime type, dropping")),
      Ok None)).
Proof.
  intros Hc Hvalid label declared sniffed.
  pose proof (parse_iter_valid detectMime maxBytes log idx att content Hc Hvalid) as Hit.
  cbv zeta in Hit. fold label declared sniffed in Hit. split.
  - intros s Hs Himg. rewrite Hit, Hs, Himg, (normalizeMime_truthy _ _ Hs).
    replace (normalizeMime (sniffMimeFromBase64 detectMime (normalizeBase64ForDecode content)))
      with (Some s) by done.
    cbn [andb negb opt_eqb render].
    by destruct (isAudioMime (Some s)), (isAudioMime declared), (String.eqb s "video/mp4").
  - intros Hs Himg. rewrite Hit, Hs, Himg. cbn [JS.truthy andb negb].
    by destruct (isAudioMime declared).
Qed.

Lemma X19_dropped_attachments_witness :
  parseMessageWithAttachments_iter magicDetect 5000000 (Some []) 2
    (attachment (Some "image/png") "" (UString pdf_b64))
  = (Some ["attachment attachment-3: detected non-image (application/pdf), dropping"],
     Ok None) /\
  parseMessageWithAttachments_iter magicDetect 5000000 (Some []) 0
    (attachment (Some "image/png") "voice.png" (UString ogg_b64))
  = (Some [], Ok None).
Proof.
  assert (Hpdf : valid_content pdf_b64 5000000).
  { split; [reflexivity|]. vm_compute. split; discriminate. }
  assert (Hogg : valid_content ogg_b64 5000000).
  { split; [reflexivity|]. vm_compute. split; discriminate. }
  split.
  - exact (proj1 (X19_dropped_attachments magicDetect 5000000 (Some []) 2
                    {| att_type := None; att_mimeType := Some "image/png";
                       att_fileName := Some ""; att_content := UString pdf_b64 |}
                    pdf_b64 eq_refl Hpdf) "application/pdf" eq_refl eq_refl).
  - exact (proj1 (X19_dropped_attachments magicDetect 5000000 (Some []) 0
                    {| att_type := None; att_mimeType := Some "image/png";
                       att_fileName := Some "voice.png"; att_content := UString ogg_b64 |}
                    ogg_b64 eq_refl Hogg) "audio/ogg" eq_refl eq_refl).
Defined.
